(** * go-vite: the contract-dispatch scheduler and the RPC error mapping

    A shallow embedding of
    - [api.TryMakeConcernedError] (RPC error mapping), and
    - the contract worker of package [unconfirmed]: construction,
      [Start]/[Stop], [dispatchTask], [FetchNewFromDb] and the pair
      blacklist,
    together with the properties the specification states about them. *)

From stdpp Require Import gmap strings list.

Open Scope string_scope.
Open Scope list_scope.
Open Scope nat_scope.

(** ** Outcomes of running Go code

    A call either returns, panics (a run-time error such as a nil
    dereference or closing a closed channel), or is still running when the
    fuel given to its loops is used up. *)

Inductive outcome (A : Type) : Type :=
  | Done (a : A)
  | Panic (why : string)
  | OutOfFuel.

Arguments Done {A} a.
Arguments Panic {A} why.
Arguments OutOfFuel {A}.

#[export] Instance outcome_ret : MRet outcome := fun A a => Done a.

#[export] Instance outcome_bind : MBind outcome := fun A B f m =>
  match m with
  | Done a => f a
  | Panic why => Panic why
  | OutOfFuel => OutOfFuel
  end.

(** ** Package api: errors handed to JSON-RPC clients *)

Module api.

Record JsonRpc2Error : Type := { Message : string; Code : Z }.

(** A non-nil value of Go's [error] interface.  Two dynamic types occur:
    [JsonRpc2Error] itself, and errors of other packages (built by
    [errors.New] and the like), of which only the message is observable. *)
Inductive error : Type :=
  | errorString (s : string)
  | rpc2Error (e : JsonRpc2Error).

Definition Error (e : error) : string :=
  match e with
  | errorString s => s
  | rpc2Error e => Message e
  end.

Definition ErrorCode (e : JsonRpc2Error) : Z := Code e.

Section ConcernedErrors.

(** The messages of [ledgererrors.ErrBalanceNotEnough],
    [walleterrors.ErrDecryptKey] and [walleterrors.ErrAlreadyLocked];
    the sources of these packages are missing. *)
Variables (balanceNotEnoughMsg decryptKeyMsg alreadyLockedMsg : string).

Definition ErrBalanceNotEnough : JsonRpc2Error :=
  {| Message := balanceNotEnoughMsg; Code := 5001 |}.

Definition ErrDecryptKey : JsonRpc2Error :=
  {| Message := decryptKeyMsg; Code := 4001 |}.

Definition AddressAlreadyUnLocked : JsonRpc2Error :=
  {| Message := alreadyLockedMsg; Code := 4002 |}.

(** The map as [init] leaves it: three assignments, in this order. *)
Definition concernedErrorMap : gmap string JsonRpc2Error :=
  <[Message ErrBalanceNotEnough := ErrBalanceNotEnough]>
    (<[Message AddressAlreadyUnLocked := AddressAlreadyUnLocked]>
       (<[Message ErrDecryptKey := ErrDecryptKey]> ∅)).

(** [None] is the nil error. *)
Definition TryMakeConcernedError (err : option error) : option error * bool :=
  match err with
  | None => (None, false)
  | Some e =>
      match concernedErrorMap !! Error e with
      | Some rerr => (Some (rpc2Error rerr), true)
      | None => (Some e, false)
      end
  end.

End ConcernedErrors.

End api.

(** ** Packages types, ledger and producer

    Only what the scheduler reads of them.  An address (20 bytes), a hash
    (32 bytes) and a group id (10 bytes) are compared and hashed but never
    taken apart, so each is represented by its printed form. *)

Module types.
Abbreviation Address := string (only parsing).
Abbreviation Hash := string (only parsing).
Abbreviation Gid := string (only parsing).
End types.

Module ledger.
Record AccountBlock : Type := {
  AccountAddress : types.Address;
  ToAddress : types.Address;
  Hash : types.Hash
}.
End ledger.

Module producer.
Record AccountStartEvent : Type := {
  Gid : types.Gid;
  Address : types.Address;
  SnapshotHash : types.Hash
}.
End producer.

#[export] Instance AccountBlock_eq_dec : EqDecision ledger.AccountBlock.
Proof. solve_decision. Defined.

(** ** container/heap

    [heap.Pop h] removes and returns the least element of [h] for the
    heap's [Less].  The array layout of the heap cannot be observed through
    [Push] and [Pop], so a heap is kept as the list of its elements in
    the order they were pushed; among elements none of which is less than
    the other the first pushed is returned. *)

Fixpoint heapPop {T : Type} (less : T -> T -> bool) (h : list T) : option (T * list T) :=
  match h with
  | [] => None
  | x :: h' =>
      match heapPop less h' with
      | None => Some (x, [])
      | Some (y, rest) => if less y x then Some (y, x :: rest) else Some (x, h')
      end
  end.

(** ** Package model: the two-level priority queue *)

Module model.

(** Modelled from the spec: [FromItem], a pending item with its sender
    priority; the source of its declaration (package model) is missing.
    [FromSeq] is the insertion sequence number of the tie-break rule. *)
Record FromItem : Type := {
  Block : ledger.AccountBlock;
  SenderPriority : N;
  FromSeq : nat
}.

(** Modelled from the spec: [ToItem], the bucket of one receiver; its
    declaration (package model) is missing from the sources.
    [dispatchTask] reads its field [Value], the inner queue. *)
Record ToItem : Type := {
  Key : types.Address;
  Value : list FromItem;
  ReceiverPriority : N;
  ToSeq : nat
}.

(** Modelled from the spec: [PriorityToQueue], the top-level structure
    over the buckets, with the counter that numbers insertions; its
    declaration (package model) is missing from the sources. *)
Record PriorityToQueue : Type := {
  Buckets : list ToItem;
  NextSeq : nat
}.

(** Modelled from the spec: the [Less] of the inner heap, whose source is
    missing.  Higher sender priority first, equal
    priorities by the smaller sequence number. *)
Definition lessFrom (a b : FromItem) : bool :=
  (SenderPriority b <? SenderPriority a)%N
  || ((SenderPriority a =? SenderPriority b)%N && (FromSeq a <? FromSeq b)%nat).

(** Modelled from the spec: the [Less] of the top-level heap, whose source
    is missing.  Higher receiver priority first, equal
    priorities by the smaller sequence number. *)
Definition lessTo (a b : ToItem) : bool :=
  (ReceiverPriority b <? ReceiverPriority a)%N
  || ((ReceiverPriority a =? ReceiverPriority b)%N && (ToSeq a <? ToSeq b)%nat).

Definition emptyQueue : PriorityToQueue := {| Buckets := []; NextSeq := 0 |}.

(** Modelled from the spec: [Len], whose source is missing:
    the total of queued items, over all buckets.  [dispatchTask] only
    compares it with 0, where it agrees with the number of buckets as long
    as no bucket is empty. *)
Definition Len (q : PriorityToQueue) : nat :=
  list_sum (map (fun b => length (Value b)) (Buckets q)).

(** All queued items, bucket after bucket. *)
Definition Items (q : PriorityToQueue) : list FromItem :=
  concat (map Value (Buckets q)).

Definition addToBucket (item : FromItem) (b : ToItem) : ToItem :=
  {| Key := Key b; Value := Value b ++ [item];
     ReceiverPriority := ReceiverPriority b; ToSeq := ToSeq b |}.

(** Part of [InsertNew]: the item goes to the bucket of its receiver, when
    there is one. *)
Fixpoint insertInto (item : FromItem) (receiver : types.Address) (bs : list ToItem)
  : option (list ToItem) :=
  match bs with
  | [] => None
  | b :: bs' =>
      if decide (Key b = receiver) then Some (addToBucket item b :: bs')
      else cons b <$> insertInto item receiver bs'
  end.

(** Modelled from the spec: [InsertNew], whose source is missing.  If no
    bucket exists for the item's receiver, one is created with the given
    receiver priority; the item is inserted into the bucket keyed by its
    sender priority. *)
Definition InsertNew (v : ledger.AccountBlock) (receiverPriority senderPriority : N)
    (q : PriorityToQueue) : PriorityToQueue :=
  let item := {| Block := v; SenderPriority := senderPriority; FromSeq := NextSeq q |} in
  match insertInto item (ledger.ToAddress v) (Buckets q) with
  | Some bs => {| Buckets := bs; NextSeq := S (NextSeq q) |}
  | None =>
      {| Buckets := Buckets q ++
           [ {| Key := ledger.ToAddress v; Value := [item];
                ReceiverPriority := receiverPriority; ToSeq := NextSeq q |} ];
         NextSeq := S (NextSeq q) |}
  end.

(** No bucket of the queue is empty, as [InsertNew] has it. *)
Definition nonEmptyBuckets (q : PriorityToQueue) : bool :=
  forallb (fun b => 0 <? length (Value b)) (Buckets q).

End model.

(** ** Package unconfirmed: the contract worker *)

(** The values of [status]. *)
Inductive Status : Type := Create | Start | Stop.

#[export] Instance Status_eq_dec : EqDecision Status.
Proof. solve_decision. Defined.

(** An error of the backing store; only its message is looked at. *)
Abbreviation error := string (only parsing).

(** A channel of the worker is open or closed; what is sent is [struct{}]. *)
Inductive chan : Type := Open | Closed.

Inductive ChanName : Type := newUnconfirmedTxAlarmChan | breakerChan | stopDispatcherListenerChan.

Inductive ChanOp : Type :=
  | Send (c : ChanName)
  | Recv (c : ChanName)
  | Close (c : ChanName).

(** Modelled from the spec: [ContractTask], a worker task of the pool; its
    declaration is missing from the sources.  A task knows its index in
    the pool and whether it has been started and not stopped. *)
Record ContractTask : Type := {
  taskIndex : nat;
  taskRunning : bool
}.

(** Everything the worker acts on outside its own struct: the listeners
    registered with the unconfirmed-blocks pool, the tasks allocated so far
    (a [*ContractTask] is a position in this list), the dispatch loops
    spawned with [go], and the operations done on the worker's channels and
    the page requests sent to the store, both in program order. *)
Record World : Type := {
  Listeners : gset string;
  Tasks : list ContractTask;
  DispatchLoops : nat;
  ChanOps : list ChanOp;
  StoreCalls : list (nat * string)
}.

Definition emptyWorld : World :=
  {| Listeners := ∅; Tasks := []; DispatchLoops := 0; ChanOps := []; StoreCalls := [] |}.

Record ContractWorker : Type := {
  gid : types.Gid;
  address : types.Address;
  accEvent : producer.AccountStartEvent;
  contractAddressList : list types.Address;
  status : Status;
  isSleep : bool;
  newUnconfirmedTxAlarm : chan;
  breaker : chan;
  stopDispatcherListener : chan;
  contractTasks : list (option nat);
  priorityToQueue : option model.PriorityToQueue;
  blackList : gmap string bool;
  lastAddrIndex : nat
}.

(** The collaborators of the worker and the constants of its package that
    are declared in sources that are missing, taken as parameters. *)
Class Env : Type := {
  CONTRACT_TASK_SIZE : nat;
  CONTRACT_FETCH_SIZE : nat;
  (** [types.DataListHash(from.Bytes(), to.Bytes())] *)
  DataListHash : types.Address -> types.Address -> types.Hash;
  (** [uBlocksPool.GetAddrListByGid] *)
  GetAddrListByGid : types.Gid -> list types.Address * option error;
  (** [uBlocksPool.GetUnconfirmedBlocks(index, num, count, addr)]; the
      first component is [None] for a nil slice. *)
  GetUnconfirmedBlocks :
    nat -> nat -> nat -> types.Address -> option (list ledger.AccountBlock) * option error;
  (** [manager.uAccess.GetAccountQuota] *)
  GetAccountQuota : types.Address -> types.Hash -> N;
  (** Whether [ContractTask.Stop] dereferences its receiver, that is,
      whether it panics when called through a nil pointer. *)
  stopDereferencesReceiver : bool
}.

(** Assignments to single fields of the worker. *)

Definition set_status (v : Status) (w : ContractWorker) : ContractWorker :=
  {| gid := gid w; address := address w; accEvent := accEvent w;
     contractAddressList := contractAddressList w; status := v; isSleep := isSleep w;
     newUnconfirmedTxAlarm := newUnconfirmedTxAlarm w; breaker := breaker w;
     stopDispatcherListener := stopDispatcherListener w;
     contractTasks := contractTasks w; priorityToQueue := priorityToQueue w;
     blackList := blackList w; lastAddrIndex := lastAddrIndex w |}.

Definition set_isSleep (v : bool) (w : ContractWorker) : ContractWorker :=
  {| gid := gid w; address := address w; accEvent := accEvent w;
     contractAddressList := contractAddressList w; status := status w; isSleep := v;
     newUnconfirmedTxAlarm := newUnconfirmedTxAlarm w; breaker := breaker w;
     stopDispatcherListener := stopDispatcherListener w;
     contractTasks := contractTasks w; priorityToQueue := priorityToQueue w;
     blackList := blackList w; lastAddrIndex := lastAddrIndex w |}.

Definition set_newUnconfirmedTxAlarm (v : chan) (w : ContractWorker) : ContractWorker :=
  {| gid := gid w; address := address w; accEvent := accEvent w;
     contractAddressList := contractAddressList w; status := status w; isSleep := isSleep w;
     newUnconfirmedTxAlarm := v; breaker := breaker w;
     stopDispatcherListener := stopDispatcherListener w;
     contractTasks := contractTasks w; priorityToQueue := priorityToQueue w;
     blackList := blackList w; lastAddrIndex := lastAddrIndex w |}.

Definition set_stopDispatcherListener (v : chan) (w : ContractWorker) : ContractWorker :=
  {| gid := gid w; address := address w; accEvent := accEvent w;
     contractAddressList := contractAddressList w; status := status w; isSleep := isSleep w;
     newUnconfirmedTxAlarm := newUnconfirmedTxAlarm w; breaker := breaker w;
     stopDispatcherListener := v;
     contractTasks := contractTasks w; priorityToQueue := priorityToQueue w;
     blackList := blackList w; lastAddrIndex := lastAddrIndex w |}.

Definition set_priorityToQueue (v : option model.PriorityToQueue) (w : ContractWorker)
  : ContractWorker :=
  {| gid := gid w; address := address w; accEvent := accEvent w;
     contractAddressList := contractAddressList w; status := status w; isSleep := isSleep w;
     newUnconfirmedTxAlarm := newUnconfirmedTxAlarm w; breaker := breaker w;
     stopDispatcherListener := stopDispatcherListener w;
     contractTasks := contractTasks w; priorityToQueue := v;
     blackList := blackList w; lastAddrIndex := lastAddrIndex w |}.

Definition set_blackList (v : gmap string bool) (w : ContractWorker) : ContractWorker :=
  {| gid := gid w; address := address w; accEvent := accEvent w;
     contractAddressList := contractAddressList w; status := status w; isSleep := isSleep w;
     newUnconfirmedTxAlarm := newUnconfirmedTxAlarm w; breaker := breaker w;
     stopDispatcherListener := stopDispatcherListener w;
     contractTasks := contractTasks w; priorityToQueue := priorityToQueue w;
     blackList := v; lastAddrIndex := lastAddrIndex w |}.

Definition set_lastAddrIndex (v : nat) (w : ContractWorker) : ContractWorker :=
  {| gid := gid w; address := address w; accEvent := accEvent w;
     contractAddressList := contractAddressList w; status := status w; isSleep := isSleep w;
     newUnconfirmedTxAlarm := newUnconfirmedTxAlarm w; breaker := breaker w;
     stopDispatcherListener := stopDispatcherListener w;
     contractTasks := contractTasks w; priorityToQueue := priorityToQueue w;
     blackList := blackList w; lastAddrIndex := v |}.

(** Changes of the world. *)

Definition set_Listeners (v : gset string) (world : World) : World :=
  {| Listeners := v; Tasks := Tasks world; DispatchLoops := DispatchLoops world;
     ChanOps := ChanOps world; StoreCalls := StoreCalls world |}.

Definition set_Tasks (v : list ContractTask) (world : World) : World :=
  {| Listeners := Listeners world; Tasks := v; DispatchLoops := DispatchLoops world;
     ChanOps := ChanOps world; StoreCalls := StoreCalls world |}.

Definition set_DispatchLoops (v : nat) (world : World) : World :=
  {| Listeners := Listeners world; Tasks := Tasks world; DispatchLoops := v;
     ChanOps := ChanOps world; StoreCalls := StoreCalls world |}.

Definition chanOp (op : ChanOp) (world : World) : World :=
  {| Listeners := Listeners world; Tasks := Tasks world; DispatchLoops := DispatchLoops world;
     ChanOps := ChanOps world ++ [op]; StoreCalls := StoreCalls world |}.

Definition storeCall (index : nat) (addr : types.Address) (world : World) : World :=
  {| Listeners := Listeners world; Tasks := Tasks world; DispatchLoops := DispatchLoops world;
     ChanOps := ChanOps world; StoreCalls := StoreCalls world ++ [(index, addr)] |}.

(** Modelled from the spec: [AddContractLis] of the unconfirmed-blocks
    pool, whose source is missing: subscribe a group to arrival
    notifications. *)
Definition AddContractLis (g : types.Gid) (world : World) : World :=
  set_Listeners ({[ g ]} ∪ Listeners world) world.

(** Modelled from the spec: [RemoveContractLis] of the unconfirmed-blocks
    pool, whose source is missing: unsubscribe a group from arrival
    notifications. *)
Definition RemoveContractLis (g : types.Gid) (world : World) : World :=
  set_Listeners (Listeners world ∖ {[ g ]}) world.

(** Modelled from the spec: [NewContractTask], whose source is missing.
    It allocates a task that is not running yet and returns the pointer to
    it. *)
Definition NewContractTask (index : nat) (world : World) : nat * World :=
  (length (Tasks world),
   set_Tasks (Tasks world ++ [ {| taskIndex := index; taskRunning := false |} ]) world).

Definition setRunning (r : bool) (t : ContractTask) : ContractTask :=
  {| taskIndex := taskIndex t; taskRunning := r |}.

(** Modelled from the spec: [ContractTask.Start], whose source is missing,
    called through a pointer that is not nil. *)
Definition ContractTask_Start (v : nat) (world : World) : World :=
  set_Tasks (alter (setRunning true) v (Tasks world)) world.

(** Modelled from the spec: [ContractTask.Stop], whose source is missing,
    called through a pointer that is not nil. *)
Definition ContractTask_Stop (v : nat) (world : World) : World :=
  set_Tasks (alter (setRunning false) v (Tasks world)) world.

(** Channel operations.  Sending on and closing a closed channel panic;
    receiving from a closed channel returns at once. *)

Definition send (name : ChanName) (c : chan) (world : World) : outcome World :=
  match c with
  | Open => Done (chanOp (Send name) world)
  | Closed => Panic "send on closed channel"
  end.

Definition recv (name : ChanName) (c : chan) (world : World) : outcome World :=
  Done (chanOp (Recv name) world).

Definition close (name : ChanName) (c : chan) (world : World) : outcome World :=
  match c with
  | Open => Done (chanOp (Close name) world)
  | Closed => Panic "close of closed channel"
  end.

Module ContractWorker.

Section Methods.

Context `{Env}.

(** The composite literal names neither [priorityToQueue] nor
    [lastAddrIndex]: the queue pointer of the new worker is nil and its
    cursor 0.  Nothing outside the worker is touched. *)
Definition NewContractWorker (accEvent : producer.AccountStartEvent) (world : World)
  : (option ContractWorker * option error) * World :=
  let '(addressList, err) := GetAddrListByGid (producer.Gid accEvent) in
  match err with
  | Some e => ((None, Some e), world)
  | None =>
      if length addressList <=? 0 then
        ((None, Some "newContractWorker addressList nil"), world)
      else
        ((Some {| gid := producer.Gid accEvent;
                  address := producer.Address accEvent;
                  accEvent := accEvent;
                  contractAddressList := addressList;
                  status := Create;
                  isSleep := false;
                  newUnconfirmedTxAlarm := Open;
                  breaker := Open;
                  stopDispatcherListener := Open;
                  contractTasks := replicate CONTRACT_TASK_SIZE None;
                  priorityToQueue := None;
                  blackList := ∅;
                  lastAddrIndex := 0 |}, None), world)
  end.

Definition NewUnconfirmedTxAlarm (w : ContractWorker) (world : World) : outcome World :=
  if isSleep w then send newUnconfirmedTxAlarmChan (newUnconfirmedTxAlarm w) world
  else Done world.

(** The loop of [Start] over [w.contractTasks]: the new task is assigned
    to the range variable [v], a copy of the element, and started. *)
Fixpoint startTasks (i : nat) (tasks : list (option nat)) (world : World) : World :=
  match tasks with
  | [] => world
  | _ :: rest =>
      let '(v, world1) := NewContractTask i world in
      startTasks (S i) rest (ContractTask_Start v world1)
  end.

Definition Start (w : ContractWorker) (world : World) : outcome (ContractWorker * World) :=
  if decide (status w <> Start) then
    let world1 := AddContractLis (gid w) world in
    let world2 := startTasks 0 (contractTasks w) world1 in
    let world3 := set_DispatchLoops (S (DispatchLoops world2)) world2 in
    Done (set_status Start w, world3)
  else
    world1 ← NewUnconfirmedTxAlarm w world;
    Done (w, world1).

(** [v.Stop()] for an element [v] of [w.contractTasks]. *)
Definition stopTask (v : option nat) (world : World) : outcome World :=
  match v with
  | Some p => Done (ContractTask_Stop p world)
  | None =>
      if stopDereferencesReceiver then Panic "nil pointer dereference"
      else Done world
  end.

(** The loop of [Stop] over [w.contractTasks], every goroutine it
    spawns run to its end, as [wg.Wait()] has it. *)
Fixpoint stopTasks (tasks : list (option nat)) (world : World) : outcome World :=
  match tasks with
  | [] => Done world
  | v :: rest => world1 ← stopTask v world; stopTasks rest world1
  end.

Definition Stop (w : ContractWorker) (world : World) : outcome (ContractWorker * World) :=
  if decide (status w <> Stop) then
    world1 ← send breakerChan (breaker w) world;
    let world2 := RemoveContractLis (gid w) world1 in
    let w1 := set_isSleep true w in
    world3 ← close newUnconfirmedTxAlarmChan (newUnconfirmedTxAlarm w1) world2;
    let w2 := set_newUnconfirmedTxAlarm Closed w1 in
    world4 ← recv stopDispatcherListenerChan (stopDispatcherListener w2) world3;
    world5 ← close stopDispatcherListenerChan (stopDispatcherListener w2) world4;
    let w3 := set_stopDispatcherListener Closed w2 in
    world6 ← stopTasks (contractTasks w3) world5;
    Done (set_status Stop w3, world6)
  else Done (w, world).

(** *** The blacklist *)

Definition addIntoBlackList (from to : types.Address) (w : ContractWorker) : ContractWorker :=
  let key := DataListHash from to in
  set_blackList (<[key := true]> (blackList w)) w.

Definition deleteBlackListItem (from to : types.Address) (w : ContractWorker)
  : ContractWorker :=
  let key := DataListHash from to in
  set_blackList (delete key (blackList w)) w.

Definition isInBlackList (w : ContractWorker) (from to : types.Address) : bool :=
  let key := DataListHash from to in
  match blackList w !! key with
  | Some _ => true
  | None => false
  end.

(** *** Paging fetch *)

(** [w.priorityToQueue.Len()] and [w.priorityToQueue.InsertNew(...)],
    through a pointer that may be nil. *)
Definition queueLen (qo : option model.PriorityToQueue) : outcome nat :=
  match qo with
  | Some q => Done (model.Len q)
  | None => Panic "nil pointer dereference"
  end.

Definition queueInsertNew (v : ledger.AccountBlock) (toQuota fromQuota : N)
    (qo : option model.PriorityToQueue) : outcome (option model.PriorityToQueue) :=
  match qo with
  | Some q => Done (Some (model.InsertNew v toQuota fromQuota q))
  | None => Panic "nil pointer dereference"
  end.

(** The body of [for _, v := range blockList], on the queue pointer and
    [count]. *)
Definition insertBlock (snapshotHash : types.Hash) (w : ContractWorker)
    (v : ledger.AccountBlock) (st : option model.PriorityToQueue * nat)
  : outcome (option model.PriorityToQueue * nat) :=
  let '(qo, count) := st in
  if negb (isInBlackList w (ledger.AccountAddress v) (ledger.ToAddress v)) then
    let fromQuota := GetAccountQuota (ledger.AccountAddress v) snapshotHash in
    let toQuota := GetAccountQuota (ledger.ToAddress v) snapshotHash in
    qo' ← queueInsertNew v toQuota fromQuota qo;
    Done (qo', S count)
  else Done (qo, count).

Fixpoint insertBlocks (snapshotHash : types.Hash) (w : ContractWorker)
    (blockList : list ledger.AccountBlock) (st : option model.PriorityToQueue * nat)
  : outcome (option model.PriorityToQueue * nat) :=
  match blockList with
  | [] => Done st
  | v :: rest =>
      st' ← insertBlock snapshotHash w v st;
      insertBlocks snapshotHash w rest st'
  end.

(** The inner [for] of [FetchNewFromDb]: the pages of one address. *)
Fixpoint pageLoop (fuel : nat) (snapshotHash : types.Hash) (w : ContractWorker)
    (addr : types.Address) (nextIndex count : nat)
    (qo : option model.PriorityToQueue) (world : World)
  : outcome (option model.PriorityToQueue * World) :=
  match fuel with
  | 0 => OutOfFuel
  | S fuel' =>
      let '(blockList, err) :=
        GetUnconfirmedBlocks nextIndex 1 CONTRACT_FETCH_SIZE addr in
      let world1 := storeCall nextIndex addr world in
      match blockList with
      | None => Done (qo, world1)
      | Some blockList =>
          match err with
          | Some _ => Done (qo, world1)
          | None =>
              '(qo', count') ← insertBlocks snapshotHash w blockList (qo, count);
              if count' <? CONTRACT_FETCH_SIZE then
                pageLoop fuel' snapshotHash w addr (S nextIndex) count' qo' world1
              else Done (qo', world1)
          end
      end
  end.

(** The outer [for] of [FetchNewFromDb], from index [i] on. *)
Fixpoint addrLoop (fuel : nat) (snapshotHash : types.Hash) (w : ContractWorker)
    (i : nat) (qo : option model.PriorityToQueue) (world : World)
  : outcome (nat * option model.PriorityToQueue * World) :=
  match fuel with
  | 0 => OutOfFuel
  | S fuel' =>
      if (i <? length (contractAddressList w))
         && (i - lastAddrIndex w <? CONTRACT_TASK_SIZE) then
        match contractAddressList w !! i with
        | None => Panic "index out of range"
        | Some addr =>
            '(qo', world') ← pageLoop fuel' snapshotHash w addr 0 0 qo world;
            addrLoop fuel' snapshotHash w (S i) qo' world'
        end
      else Done (i, qo, world)
  end.

Definition FetchNewFromDb (fuel : nat) (w : ContractWorker) (world : World)
  : outcome (bool * ContractWorker * World) :=
  let snapshotHash := producer.SnapshotHash (accEvent w) in
  '(i, qo, world') ←
    addrLoop fuel snapshotHash w (lastAddrIndex w) (priorityToQueue w) world;
  let w1 := set_lastAddrIndex i (set_priorityToQueue qo w) in
  if length (contractAddressList w1) <=? lastAddrIndex w1 then
    Done (true, set_lastAddrIndex 0 w1, world')
  else Done (false, w1, world').

(** *** Dispatch *)

(** [for !w.FetchNewFromDb() { if w.priorityToQueue.Len() != 0 { break } }] *)
Fixpoint fetchLoop (fuel : nat) (w : ContractWorker) (world : World)
  : outcome (ContractWorker * World) :=
  match fuel with
  | 0 => OutOfFuel
  | S fuel' =>
      '(full, w1, world1) ← FetchNewFromDb fuel' w world;
      if (full : bool) then Done (w1, world1)
      else
        n ← queueLen (priorityToQueue w1);
        if negb (n =? 0) then Done (w1, world1)
        else fetchLoop fuel' w1 world1
  end.

(** [heap.Pop(w.priorityToQueue)]: the bucket leaves the top-level
    heap. *)
Definition popToItem (w : ContractWorker) : outcome (model.ToItem * ContractWorker) :=
  match priorityToQueue w with
  | None => Panic "nil pointer dereference"
  | Some q =>
      match heapPop model.lessTo (model.Buckets q) with
      | None => Panic "index out of range"
      | Some (tItem, rest) =>
          Done (tItem,
                set_priorityToQueue
                  (Some {| model.Buckets := rest; model.NextSeq := model.NextSeq q |}) w)
      end
  end.

Definition dispatchTask (fuel : nat) (index : nat) (w : ContractWorker) (world : World)
  : outcome (option model.FromItem * ContractWorker * World) :=
  n ← queueLen (priorityToQueue w);
  '(w1, world1) ← (if n =? 0 then fetchLoop fuel w world else Done (w, world));
  n1 ← queueLen (priorityToQueue w1);
  if n1 =? 0 then Done (None, w1, world1)
  else
    '(tItem, w2) ← popToItem w1;
    let priorityFromQueue := model.Value tItem in
    if 0 <? length priorityFromQueue then
      match heapPop model.lessFrom priorityFromQueue with
      | Some (fItem, _) => Done (Some fItem, w2, world1)
      | None => Panic "index out of range"
      end
    else Done (None, w2, world1).

End Methods.

End ContractWorker.

(** ** Concrete schedulers

    Stores, queues and workers on which the definitions above are run. *)

Definition blockOf (from to : types.Address) : ledger.AccountBlock :=
  {| ledger.AccountAddress := from; ledger.ToAddress := to;
     ledger.Hash := from +:+ "->" +:+ to |}.

(** A store: the pages of each address, in order; past them the store
    returns a nil slice. *)
Definition pagesStore (pages : types.Address -> list (option (list ledger.AccountBlock) * option error))
    (index num count : nat) (addr : types.Address)
  : option (list ledger.AccountBlock) * option error :=
  default (None, None) (pages addr !! index).

Definition noPages (addr : types.Address)
  : list (option (list ledger.AccountBlock) * option error) := [].

(** R1 has two pending blocks, from S1 and S2, and R2 has one, from S3. *)
Definition abPages (addr : types.Address)
  : list (option (list ledger.AccountBlock) * option error) :=
  if decide (addr = "R1") then [ (Some [blockOf "S1" "R1"; blockOf "S2" "R1"], None) ]
  else if decide (addr = "R2") then [ (Some [blockOf "S3" "R2"], None) ]
  else [].

(** Every request fails, and hands back a page all the same. *)
Definition failingStore (index num count : nat) (addr : types.Address)
  : option (list ledger.AccountBlock) * option error :=
  (Some [blockOf "S1" addr], Some "leveldb: closed").

Definition abQuota (addr : types.Address) (snapshotHash : types.Hash) : N :=
  if decide (addr = "R1") then 10
  else if decide (addr = "R2") then 20
  else if decide (addr = "S1") then 5
  else if decide (addr = "S2") then 8
  else if decide (addr = "S3") then 1
  else 0.

Definition demoEnv (addrs : list types.Address)
    (store : nat -> nat -> nat -> types.Address -> option (list ledger.AccountBlock) * option error)
    (nilStopPanics : bool) : Env :=
  {| CONTRACT_TASK_SIZE := 2;
     CONTRACT_FETCH_SIZE := 2;
     DataListHash := fun from to => from +:+ "|" +:+ to;
     GetAddrListByGid := fun _ => (addrs, None);
     GetUnconfirmedBlocks := store;
     GetAccountQuota := abQuota;
     stopDereferencesReceiver := nilStopPanics |}.

Definition demoEvent : producer.AccountStartEvent :=
  {| producer.Gid := "G"; producer.Address := "A"; producer.SnapshotHash := "H" |}.

(** A worker as [NewContractWorker] builds it for two bound addresses, with
    the queue [qo], the blacklist [bl] and the cursor [cursor]. *)
Definition demoWorker (qo : option model.PriorityToQueue) (bl : gmap string bool)
    (cursor : nat) : ContractWorker :=
  {| gid := "G"; address := "A"; accEvent := demoEvent;
     contractAddressList := ["R1"; "R2"];
     status := Create; isSleep := false;
     newUnconfirmedTxAlarm := Open; breaker := Open; stopDispatcherListener := Open;
     contractTasks := [None; None];
     priorityToQueue := qo; blackList := bl; lastAddrIndex := cursor |}.

(** Scenario A of the specification: R1 (priority 10) with (S1, 5) and
    (S2, 8), then R2 (priority 20) with (S3, 1). *)
Definition scenarioA : model.PriorityToQueue :=
  model.InsertNew (blockOf "S3" "R2") 20 1
    (model.InsertNew (blockOf "S2" "R1") 10 8
       (model.InsertNew (blockOf "S1" "R1") 10 5 model.emptyQueue)).

(** One receiver with two pending items. *)
Definition twoOfR1 : model.PriorityToQueue :=
  model.InsertNew (blockOf "S2" "R1") 10 8
    (model.InsertNew (blockOf "S1" "R1") 10 5 model.emptyQueue).

(** A worker task calling the dispatch callback [n] times in a row; the
    (receiver, sender) pairs it is handed, [None] for "no work". *)
Fixpoint dispatchMany `{Env} (fuel n : nat) (w : ContractWorker) (world : World)
  : outcome (list (option (types.Address * types.Address)) * ContractWorker * World) :=
  match n with
  | 0 => Done ([], w, world)
  | S n' =>
      '(r, w1, world1) ← ContractWorker.dispatchTask fuel 0 w world;
      '(rs, w2, world2) ← dispatchMany fuel n' w1 world1;
      let pair :=
        match r with
        | Some f =>
            Some (ledger.ToAddress (model.Block f), ledger.AccountAddress (model.Block f))
        | None => None
        end in
      Done (pair :: rs, w2, world2)
  end.

(** The store of R1 and R2 above, the empty store and the failing store,
    each with the two bound addresses R1 and R2. *)
Definition abEnv : Env := demoEnv ["R1"; "R2"] (pagesStore abPages) true.

Definition emptyEnv (nilStopPanics : bool) : Env :=
  demoEnv ["R1"; "R2"] (pagesStore noPages) nilStopPanics.

Definition failingEnv : Env := demoEnv ["R1"; "R2"] failingStore true.

(** A group without bound addresses. *)
Definition unboundEnv : Env := demoEnv [] (pagesStore noPages) true.

(** The worker right after [Start]: running, the dispatch loop not yet
    asleep. *)
Definition runningWorker : ContractWorker := set_status Start (demoWorker None ∅ 0).

(** Start, Stop, Start and Stop again, on a worker fresh from
    [NewContractWorker]. *)
Definition restartAndStop `{Env} (world : World) : outcome (ContractWorker * World) :=
  match ContractWorker.NewContractWorker demoEvent world with
  | ((Some w0, _), world0) =>
      '(w1, world1) ← ContractWorker.Start w0 world0;
      '(w2, world2) ← ContractWorker.Stop w1 world1;
      '(w3, world3) ← ContractWorker.Start w2 world2;
      ContractWorker.Stop w3 world3
  | ((None, _), _) => Panic "no worker"
  end.

(** ** What the statements below observe *)

(** The items behind a queue pointer; none behind nil. *)
Definition queuedItems (qo : option model.PriorityToQueue) : list model.FromItem :=
  match qo with
  | Some q => model.Items q
  | None => []
  end.

Definition hasPair (from to : types.Address) (v : ledger.AccountBlock) : bool :=
  bool_decide (ledger.AccountAddress v = from) && bool_decide (ledger.ToAddress v = to).

(** How many queued items go from [from] to [to]. *)
Definition pairCount (from to : types.Address) (qo : option model.PriorityToQueue) : nat :=
  length (filter (fun it => hasPair from to (model.Block it) = true) (queuedItems qo)).

(** The world after further page requests. *)
Definition addCalls (calls : list (nat * string)) (world : World) : World :=
  {| Listeners := Listeners world; Tasks := Tasks world; DispatchLoops := DispatchLoops world;
     ChanOps := ChanOps world; StoreCalls := StoreCalls world ++ calls |}.

(** The addresses whose paging was begun by the requests [calls]: paging of
    an address begins with its page 0. *)
Definition scannedBy (calls : list (nat * string)) : list types.Address :=
  (filter (fun c : nat * string => c.1 = 0) calls).*2.

(** A page request is answered by the end of the data, or by an error. *)
Definition pageEnds (r : option (list ledger.AccountBlock) * option error) : bool :=
  match r with
  | (None, _) => true
  | (Some _, Some _) => true
  | (Some _, None) => false
  end.

Section Observations.

Context `{Env}.

(** The blocks a page request brings in: those of a page that is neither
    nil nor in error. *)
Definition pageOf (c : nat * string) : list ledger.AccountBlock :=
  match GetUnconfirmedBlocks c.1 1 CONTRACT_FETCH_SIZE c.2 with
  | (Some blockList, None) => blockList
  | _ => []
  end.

Definition readBlocks (calls : list (nat * string)) : list ledger.AccountBlock :=
  concat (map pageOf calls).

Definition notBlacklisted (w : ContractWorker) (v : ledger.AccountBlock) : bool :=
  negb (ContractWorker.isInBlackList w (ledger.AccountAddress v) (ledger.ToAddress v)).

(** [InsertNew] of the blocks [vs] in order, each with the quotas of its
    two sides. *)
Definition insertAll (snapshotHash : types.Hash) (vs : list ledger.AccountBlock)
    (q : model.PriorityToQueue) : model.PriorityToQueue :=
  fold_left
    (fun q v =>
       model.InsertNew v (GetAccountQuota (ledger.ToAddress v) snapshotHash)
         (GetAccountQuota (ledger.AccountAddress v) snapshotHash) q)
    vs q.

(** The paging of [addr] ends at one of its pages 0 .. [bound]. *)
Definition pagesEndBy (bound : nat) (addr : types.Address) : bool :=
  existsb (fun n => pageEnds (GetUnconfirmedBlocks n 1 CONTRACT_FETCH_SIZE addr))
    (seq 0 (S bound)).

Definition storeBoundedBy (bound : nat) (w : ContractWorker) : bool :=
  forallb (pagesEndBy bound) (contractAddressList w).

(** The addresses one call of [FetchNewFromDb] is to scan: a batch of at
    most [CONTRACT_TASK_SIZE] addresses from the cursor on. *)
Definition batch (w : ContractWorker) : list types.Address :=
  take CONTRACT_TASK_SIZE (drop (lastAddrIndex w) (contractAddressList w)).

End Observations.

(** ** A pass of fetches

    A caller that calls [FetchNewFromDb] again and again until it reports a
    full pass. *)

Fixpoint fetchPass `{Env} (fuel : nat) (w : ContractWorker) (world : World)
  : outcome (ContractWorker * World) :=
  match fuel with
  | 0 => OutOfFuel
  | S fuel' =>
      '(full, w1, world1) ← ContractWorker.FetchNewFromDb fuel' w world;
      if (full : bool) then Done (w1, world1) else fetchPass fuel' w1 world1
  end.

(** ** Package unconfirmed: the auto-receive worker *)

(** What a goroutine of the auto-receive worker comes to: it returns,
    panics, blocks for ever on a channel, or is still running when the
    fuel given to its loop is used up. *)
Inductive run (A : Type) : Type :=
  | Returns (a : A)
  | Panics (why : string)
  | Blocks
  | Starved.

Arguments Returns {A} a.
Arguments Panics {A} why.
Arguments Blocks {A}.
Arguments Starved {A}.

#[export] Instance run_ret : MRet run := fun A a => Returns a.

#[export] Instance run_bind : MBind run := fun A B f m =>
  match m with
  | Returns a => f a
  | Panics why => Panics why
  | Blocks => Blocks
  | Starved => Starved
  end.

Module AutoReceiveWorker.

(** The fields of a pending [ledger.AccountBlock] that [startWork] reads;
    an amount is a [big.Int]. *)
Record Tx : Type := {
  TokenId : string;
  Amount : Z;
  TxHash : types.Hash
}.

(** A channel field of the worker: nil until [Start] makes it. *)
Inductive channel : Type := nilChan | openChan | closedChan.

Inductive ChanName : Type := breakerCh | stopListenerCh | newUnconfirmedTxAlarmCh.

(** What the worker does to its channels and asks of the unconfirmed-blocks
    pool, in program order.  The calls of [ProcessOneBlock], whose body is
    empty, are recorded as well. *)
Inductive Event : Type :=
  | MakeChan (c : ChanName)
  | SendOn (c : ChanName)
  | RecvFrom (c : ChanName)
  | CloseOf (c : ChanName)
  | AddCommonTxLis (addr : types.Address)
  | RemoveCommonTxLis (addr : types.Address)
  | AcquireAccountInfoCache (addr : types.Address)
  | ReleaseAccountInfoCache (addr : types.Address)
  | ResetCacheCursor (addr : types.Address)
  | GoStartWork
  | ProcessOneBlock (tx : Tx).

Record AutoReceiveWorker : Type := {
  address : types.Address;
  status : Status;
  isSleeping : bool;
  breaker : channel;
  stopListener : channel;
  newUnconfirmedTxAlarm : channel;
  filters : gmap string Z
}.

Definition set_status (v : Status) (w : AutoReceiveWorker) : AutoReceiveWorker :=
  {| address := address w; status := v; isSleeping := isSleeping w;
     breaker := breaker w; stopListener := stopListener w;
     newUnconfirmedTxAlarm := newUnconfirmedTxAlarm w; filters := filters w |}.

Definition set_isSleeping (v : bool) (w : AutoReceiveWorker) : AutoReceiveWorker :=
  {| address := address w; status := status w; isSleeping := v;
     breaker := breaker w; stopListener := stopListener w;
     newUnconfirmedTxAlarm := newUnconfirmedTxAlarm w; filters := filters w |}.

Definition set_breaker (v : channel) (w : AutoReceiveWorker) : AutoReceiveWorker :=
  {| address := address w; status := status w; isSleeping := isSleeping w;
     breaker := v; stopListener := stopListener w;
     newUnconfirmedTxAlarm := newUnconfirmedTxAlarm w; filters := filters w |}.

Definition set_stopListener (v : channel) (w : AutoReceiveWorker) : AutoReceiveWorker :=
  {| address := address w; status := status w; isSleeping := isSleeping w;
     breaker := breaker w; stopListener := v;
     newUnconfirmedTxAlarm := newUnconfirmedTxAlarm w; filters := filters w |}.

Definition set_newUnconfirmedTxAlarm (v : channel) (w : AutoReceiveWorker)
  : AutoReceiveWorker :=
  {| address := address w; status := status w; isSleeping := isSleeping w;
     breaker := breaker w; stopListener := stopListener w;
     newUnconfirmedTxAlarm := v; filters := filters w |}.

Definition set_filters (v : gmap string Z) (w : AutoReceiveWorker) : AutoReceiveWorker :=
  {| address := address w; status := status w; isSleeping := isSleeping w;
     breaker := breaker w; stopListener := stopListener w;
     newUnconfirmedTxAlarm := newUnconfirmedTxAlarm w; filters := v |}.

(** Channel operations.  A send on and a receive from a nil channel block
    for ever; closing a nil or a closed channel and sending on a closed
    channel panic; a receive from a closed channel returns at once. *)

(** A send whose receiver comes to its receive: [NewUnconfirmedTxAlarm]
    sends only to a worker marked sleeping, and the last send of
    [startWork] answers the [Stop] that broke its loop. *)
Definition chanSend (name : ChanName) (c : channel) (events : list Event)
  : run (list Event) :=
  match c with
  | nilChan => Blocks
  | openChan => Returns (events ++ [SendOn name])
  | closedChan => Panics "send on closed channel"
  end.

(** The channels are unbuffered: on an open channel a send returns when
    the goroutine at the other end receives, and a receive when the other
    end sends.  [peer] tells whether the other end does; when it does not,
    the operation blocks for ever. *)
Definition chanSendTo (peer : bool) (name : ChanName) (c : channel) (events : list Event)
  : run (list Event) :=
  match c with
  | nilChan => Blocks
  | openChan => if peer then Returns (events ++ [SendOn name]) else Blocks
  | closedChan => Panics "send on closed channel"
  end.

Definition chanRecvFrom (peer : bool) (name : ChanName) (c : channel) (events : list Event)
  : run (list Event) :=
  match c with
  | nilChan => Blocks
  | openChan => if peer then Returns (events ++ [RecvFrom name]) else Blocks
  | closedChan => Returns (events ++ [RecvFrom name])
  end.

Definition chanClose (name : ChanName) (c : channel) (events : list Event)
  : run (list Event) :=
  match c with
  | nilChan => Panics "close of nil channel"
  | openChan => Returns (events ++ [CloseOf name])
  | closedChan => Panics "close of closed channel"
  end.

(** The channels are not made here: they are nil in the new worker. *)
Definition NewAutoReceiveWorker (address : types.Address) (filters : gmap string Z)
  : AutoReceiveWorker :=
  {| address := address; status := Create; isSleeping := false;
     breaker := nilChan; stopListener := nilChan; newUnconfirmedTxAlarm := nilChan;
     filters := filters |}.

Definition Status (w : AutoReceiveWorker) : Status := status w.

Definition NewUnconfirmedTxAlarm (w : AutoReceiveWorker) (events : list Event)
  : run (list Event) :=
  if isSleeping w then chanSend newUnconfirmedTxAlarmCh (newUnconfirmedTxAlarm w) events
  else Returns events.

Definition ResetAutoReceiveFilter (filters : gmap string Z) (w : AutoReceiveWorker)
    (events : list Event) : AutoReceiveWorker * list Event :=
  let w1 := set_filters filters w in
  if decide (Status w1 = Start) then (w1, events ++ [ResetCacheCursor (address w1)])
  else (w1, events).

(** The test of [startWork] on a pending block: it is processed when its
    token has a filter and its amount is not below the filter's minimum. *)
Definition skipped (w : AutoReceiveWorker) (tx : Tx) : bool :=
  match filters w !! TokenId tx with
  | Some minAmount => (Amount tx <? minAmount)%Z
  | None => true
  end.

(** How the goroutine of [startWork] leaves its loop: it waits in the
    [select] for a wake or a stop signal, or it has gone to [END] and sent
    its acknowledgment. *)
Inductive LoopEnd : Type := Parked | Ended.

Section Pool.

(** The state of the unconfirmed-blocks pool and its [GetNextTx], which
    hands out the next pending block of an address or nil; declared in
    sources that are missing, taken as parameters. *)
Context {Pool : Type}.
Variable GetNextTx : types.Address -> Pool -> option Tx * Pool.

(** [startWork], from the top of its loop to the [select] or to its end. *)
Fixpoint startWork (fuel : nat) (w : AutoReceiveWorker) (pool : Pool) (events : list Event)
  : run (LoopEnd * AutoReceiveWorker * Pool * list Event) :=
  match fuel with
  | 0 => Starved
  | S fuel' =>
      let w1 := set_isSleeping false w in
      if decide (Status w1 = Stop) then
        events1 ← chanSend stopListenerCh (stopListener w1) events;
        Returns (Ended, w1, pool, events1)
      else
        let '(tx, pool1) := GetNextTx (address w1) pool in
        match tx with
        | Some tx =>
            if skipped w1 tx then startWork fuel' w1 pool1 events
            else startWork fuel' w1 pool1 (events ++ [ProcessOneBlock tx])
        | None => Returns (Parked, set_isSleeping true w1, pool1, events)
        end
  end.

(** The pending blocks [GetNextTx] hands out from [pool] until it returns
    nil, when that happens within [n] calls. *)
Fixpoint pendingTxs (n : nat) (addr : types.Address) (pool : Pool)
  : option (list Tx * Pool) :=
  match n with
  | 0 => None
  | S n' =>
      match GetNextTx addr pool with
      | (None, pool1) => Some ([], pool1)
      | (Some tx, pool1) =>
          match pendingTxs n' addr pool1 with
          | Some (txs, pool2) => Some (tx :: txs, pool2)
          | None => None
          end
      end
  end.

End Pool.

Definition Start (w : AutoReceiveWorker) (events : list Event)
  : run (AutoReceiveWorker * list Event) :=
  if decide (status w <> Start) then
    let w1 := set_breaker openChan w in
    let w2 := set_newUnconfirmedTxAlarm openChan w1 in
    let w3 := set_stopListener openChan w2 in
    let events1 :=
      events ++ [MakeChan breakerCh; MakeChan newUnconfirmedTxAlarmCh;
                 MakeChan stopListenerCh; AddCommonTxLis (address w3);
                 AcquireAccountInfoCache (address w3); GoStartWork] in
    Returns (set_status Start w3, events1)
  else
    events1 ← NewUnconfirmedTxAlarm w events;
    Returns (w, events1).

(** [Stop] meets the goroutine of [startWork] twice: its send on [breaker]
    is taken by the [select] of [startWork], which then goes to [END] and
    sends on [stopListener] the acknowledgment that [Stop] receives.
    [parked] tells whether that goroutine waits in its [select], where it
    is once [GetNextTx] has returned nil, when [Stop] sends; a goroutine
    that is elsewhere, or that was never spawned, takes nothing and
    acknowledges nothing. *)
Definition Stop (parked : bool) (w : AutoReceiveWorker) (events : list Event)
  : run (AutoReceiveWorker * list Event) :=
  if decide (status w <> Stop) then
    let events1 := events ++ [ReleaseAccountInfoCache (address w)] in
    events2 ← chanSendTo parked breakerCh (breaker w) events1;
    events3 ← chanClose breakerCh (breaker w) events2;
    let w1 := set_breaker closedChan w in
    let events4 := events3 ++ [RemoveCommonTxLis (address w1)] in
    events5 ← chanClose newUnconfirmedTxAlarmCh (newUnconfirmedTxAlarm w1) events4;
    let w2 := set_newUnconfirmedTxAlarm closedChan w1 in
    events6 ← chanRecvFrom parked stopListenerCh (stopListener w2) events5;
    events7 ← chanClose stopListenerCh (stopListener w2) events6;
    let w3 := set_stopListener closedChan w2 in
    Returns (set_status Stop w3, events7)
  else Returns (w, events).

(** [Close] stops the worker and returns a nil error. *)
Definition Close (parked : bool) (w : AutoReceiveWorker) (events : list Event)
  : run (AutoReceiveWorker * list Event * option error) :=
  '(w1, events1) ← Stop parked w events;
  Returns (w1, events1, None).

End AutoReceiveWorker.

(** ** Package handler: unconfirmed accounts *)

Module handler.

(** What [GetUnconfirmedAccount] reads of [ledger.UnconfirmedMeta], and its
    own result types.  A total is a [big.Int]; a [*ledger.Token] is a name,
    or nil. *)

Record TokenInfoMeta : Type := {
  MetaTokenId : string;
  MetaTotalAmount : Z
}.

Record UnconfirmedMeta : Type := {
  MetaTotalNumber : Z;
  MetaTokenInfoList : list TokenInfoMeta
}.

Record TokenInfo : Type := {
  Token : option string;
  TotalAmount : Z
}.

Record UnconfirmedAccount : Type := {
  AccountAddress : types.Address;
  TotalNumber : Z;
  TokenInfoList : list TokenInfo
}.

(** The accessors of an [AccountChain], declared in sources that are
    missing, taken as parameters. *)
Class AccountChain : Type := {
  (** [ac.uAccess.GetUnconfirmedAccountMeta] *)
  uAccess_GetUnconfirmedAccountMeta :
    types.Address -> option UnconfirmedMeta * option error;
  (** [ac.tAccess.GetByTokenId] *)
  tAccess_GetByTokenId : string -> option string * option error
}.

Section Methods.

Context `{AccountChain}.

Definition GetUnconfirmedAccountMeta (addr : types.Address)
  : option UnconfirmedMeta * option error :=
  uAccess_GetUnconfirmedAccountMeta addr.

(** The loop of [GetUnconfirmedAccount] over the token infos of the meta:
    the first token that cannot be looked up ends it with its error. *)
Fixpoint tokenInfos (metas : list TokenInfoMeta) (tokenInfoList : list TokenInfo)
  : list TokenInfo + error :=
  match metas with
  | [] => inl tokenInfoList
  | ti :: rest =>
      let '(token, tkErr) := tAccess_GetByTokenId (MetaTokenId ti) in
      match tkErr with
      | Some e => inr e
      | None =>
          let tokenInfo := {| Token := token; TotalAmount := MetaTotalAmount ti |} in
          tokenInfos rest (tokenInfoList ++ [tokenInfo])
      end
  end.

Definition GetUnconfirmedAccount (addr : types.Address)
  : outcome (option UnconfirmedAccount * option error) :=
  let '(unconfirmedMeta, err) := GetUnconfirmedAccountMeta addr in
  match err with
  | Some e => Done (None, Some e)
  | None =>
      match unconfirmedMeta with
      | None => Panic "nil pointer dereference"
      | Some meta =>
          match tokenInfos (MetaTokenInfoList meta) [] with
          | inr tkErr => Done (None, Some tkErr)
          | inl tokenInfoList =>
              Done (Some {| AccountAddress := addr;
                            TotalNumber := MetaTotalNumber meta;
                            TokenInfoList := tokenInfoList |}, None)
          end
      end
  end.

End Methods.

End handler.

(** ** Concrete auto-receive workers and account chains *)

(** A pool that hands out the blocks of a list, one by one. *)
Definition listPool (addr : types.Address) (pool : list AutoReceiveWorker.Tx)
  : option AutoReceiveWorker.Tx * list AutoReceiveWorker.Tx :=
  match pool with
  | [] => (None, [])
  | tx :: rest => (Some tx, rest)
  end.

Definition txOf (token : string) (amount : Z) : AutoReceiveWorker.Tx :=
  {| AutoReceiveWorker.TokenId := token; AutoReceiveWorker.Amount := amount;
     AutoReceiveWorker.TxHash := token |}.

(** A worker that receives VITE from 10 on, started. *)
Definition viteReceiver : AutoReceiveWorker.AutoReceiveWorker :=
  AutoReceiveWorker.set_status Start
    (AutoReceiveWorker.NewAutoReceiveWorker "A" {[ "VITE" := 10%Z ]}).

(** An account chain that knows of the tokens VITE and VCP, and of one
    account with unconfirmed amounts of both. *)
Definition demoChain : handler.AccountChain :=
  {| handler.uAccess_GetUnconfirmedAccountMeta := fun addr =>
       if decide (addr = "A") then
         (Some {| handler.MetaTotalNumber := 3;
                  handler.MetaTokenInfoList :=
                    [ {| handler.MetaTokenId := "VITE"; handler.MetaTotalAmount := 25 |};
                      {| handler.MetaTokenId := "VCP"; handler.MetaTotalAmount := 7 |} ] |},
          None)
       else (None, Some "leveldb: not found");
     handler.tAccess_GetByTokenId := fun id =>
       if decide (id = "VITE") then (Some "Vite Token", None)
       else if decide (id = "VCP") then (Some "Vite Community Point", None)
       else (None, Some "token not found") |}.

(** * Properties *)

Section ConcernedErrorFacts.

Import api.
Variables (bal dec lck : string).

Lemma concerned_lookup_balance :
  concernedErrorMap bal dec lck !! bal = Some (ErrBalanceNotEnough bal).
Proof. unfold concernedErrorMap; simpl. apply lookup_insert_eq. Qed.

Lemma concerned_lookup_locked :
  lck ≠ bal ->
  concernedErrorMap bal dec lck !! lck = Some (AddressAlreadyUnLocked lck).
Proof.
  intros Hne. unfold concernedErrorMap; simpl.
  rewrite lookup_insert_ne by congruence. apply lookup_insert_eq.
Qed.

Lemma concerned_lookup_decrypt :
  dec ≠ bal -> dec ≠ lck ->
  concernedErrorMap bal dec lck !! dec = Some (ErrDecryptKey dec).
Proof.
  intros H1 H2. unfold concernedErrorMap; simpl.
  rewrite !lookup_insert_ne by congruence. apply lookup_insert_eq.
Qed.

Lemma concerned_lookup_other (m : string) :
  m ≠ bal -> m ≠ dec -> m ≠ lck ->
  concernedErrorMap bal dec lck !! m = None.
Proof.
  intros H1 H2 H3. unfold concernedErrorMap; simpl.
  rewrite !lookup_insert_ne by congruence. apply lookup_empty.
Qed.

(** C10.  With three distinct registered messages,
    [TryMakeConcernedError] maps the nil error to (nil, false); an error
    whose message is the decrypt-key, already-locked or
    balance-not-enough message to the registered [JsonRpc2Error] with code
    4001, 4002 or 5001, and true; and every other error to itself and
    false. *)
Theorem TryMakeConcernedError_spec :
  bal ≠ dec -> bal ≠ lck -> dec ≠ lck ->
  TryMakeConcernedError bal dec lck None = (None, false)
  /\ (forall e, Error e = dec ->
        TryMakeConcernedError bal dec lck (Some e)
        = (Some (rpc2Error {| Message := dec; Code := 4001 |}), true))
  /\ (forall e, Error e = lck ->
        TryMakeConcernedError bal dec lck (Some e)
        = (Some (rpc2Error {| Message := lck; Code := 4002 |}), true))
  /\ (forall e, Error e = bal ->
        TryMakeConcernedError bal dec lck (Some e)
        = (Some (rpc2Error {| Message := bal; Code := 5001 |}), true))
  /\ (forall e, Error e ≠ dec -> Error e ≠ lck -> Error e ≠ bal ->
        TryMakeConcernedError bal dec lck (Some e) = (Some e, false)).
Proof.
  intros Hbd Hbl Hdl. repeat split.
  - intros e He. unfold TryMakeConcernedError.
    rewrite He, concerned_lookup_decrypt by congruence. reflexivity.
  - intros e He. unfold TryMakeConcernedError.
    rewrite He, concerned_lookup_locked by congruence. reflexivity.
  - intros e He. unfold TryMakeConcernedError.
    rewrite He, concerned_lookup_balance. reflexivity.
  - intros e H1 H2 H3. unfold TryMakeConcernedError.
    rewrite concerned_lookup_other by congruence. reflexivity.
Qed.

End ConcernedErrorFacts.

(** ** Outcomes and worlds *)

Lemma bind_Done {A B : Type} (m : outcome A) (f : A -> outcome B) (b : B) :
  m ≫= f = Done b -> exists a, m = Done a /\ f a = Done b.
Proof. destruct m as [a | why | ]; simpl; intros Hb; try discriminate. eauto. Qed.

Lemma addCalls_nil (world : World) : addCalls [] world = world.
Proof. destruct world; unfold addCalls; simpl. by rewrite app_nil_r. Qed.

Lemma addCalls_app (c1 c2 : list (nat * string)) (world : World) :
  addCalls c2 (addCalls c1 world) = addCalls (c1 ++ c2) world.
Proof. unfold addCalls; simpl. by rewrite app_assoc. Qed.

Lemma storeCall_addCalls (k : nat) (a : string) (world : World) :
  storeCall k a world = addCalls [(k, a)] world.
Proof. reflexivity. Qed.

(** ** The heap *)

Section HeapFacts.

Context {T : Type} (less : T -> T -> bool).

Lemma heapPop_nil (h : list T) : heapPop less h = None <-> h = [].
Proof.
  destruct h as [| x h']; simpl; [done |].
  destruct (heapPop less h') as [[y rest] |]; [destruct (less y x) |]; done.
Qed.

Lemma heapPop_perm (h : list T) (x : T) (rest : list T) :
  heapPop less h = Some (x, rest) -> h ≡ₚ x :: rest.
Proof.
  revert x rest. induction h as [| a h' IH]; intros x rest; simpl; [done |].
  destruct (heapPop less h') as [[y r] |] eqn:Hpop.
  - specialize (IH y r eq_refl). destruct (less y a); intros [= <- <-].
    + rewrite IH. apply Permutation_swap.
    + done.
  - apply heapPop_nil in Hpop as ->. by intros [= <- <-].
Qed.

Lemma heapPop_length (h : list T) (x : T) (rest : list T) :
  heapPop less h = Some (x, rest) -> length h = S (length rest).
Proof. intros Hpop. by rewrite (heapPop_perm _ _ _ Hpop). Qed.

Lemma heapPop_elem (h : list T) (x : T) (rest : list T) :
  heapPop less h = Some (x, rest) -> x ∈ h.
Proof. intros Hpop. rewrite (heapPop_perm _ _ _ Hpop). left. Qed.

Lemma heapPop_is_Some (h : list T) : h <> [] -> is_Some (heapPop less h).
Proof.
  intros Hne. destruct (heapPop less h) eqn:Hpop; [done |].
  by apply heapPop_nil in Hpop.
Qed.

End HeapFacts.

(** For a [Less] that is a strict weak order the element popped is a least
    one: no element of the heap is less. *)

Section HeapOrder.

Context {T : Type} (less : T -> T -> bool).

Hypothesis less_irrefl : forall x, less x x = false.
Hypothesis less_asym : forall x y, less x y = true -> less y x = false.
Hypothesis less_negtrans :
  forall x y z, less x y = false -> less y z = false -> less x z = false.

Lemma heapPop_least (h : list T) (x : T) (rest : list T) :
  heapPop less h = Some (x, rest) -> forall y, y ∈ h -> less y x = false.
Proof.
  revert x rest. induction h as [| a h' IH]; intros x rest; simpl; [done |].
  destruct (heapPop less h') as [[b r] |] eqn:Hpop.
  - specialize (IH b r eq_refl). destruct (less b a) eqn:Hba; intros [= <- <-] y Hy.
    + apply elem_of_cons in Hy as [-> | Hy]; [by apply less_asym | by apply IH].
    + apply elem_of_cons in Hy as [-> | Hy]; [done |].
      eapply less_negtrans; [by apply IH | done].
  - apply heapPop_nil in Hpop as ->. intros [= <- <-] y Hy.
    apply elem_of_cons in Hy as [-> | Hy]; [done | by apply elem_of_nil in Hy].
Qed.

End HeapOrder.

(** ** The queue *)

Section QueueFacts.

Import model.

Lemma lessFrom_false (a b : FromItem) :
  lessFrom a b = false <->
  (SenderPriority a < SenderPriority b)%N
  \/ (SenderPriority a = SenderPriority b /\ FromSeq b <= FromSeq a).
Proof.
  unfold lessFrom.
  rewrite orb_false_iff, andb_false_iff, N.ltb_ge, N.eqb_neq, Nat.ltb_ge. lia.
Qed.

Lemma lessTo_false (a b : ToItem) :
  lessTo a b = false <->
  (ReceiverPriority a < ReceiverPriority b)%N
  \/ (ReceiverPriority a = ReceiverPriority b /\ ToSeq b <= ToSeq a).
Proof.
  unfold lessTo.
  rewrite orb_false_iff, andb_false_iff, N.ltb_ge, N.eqb_neq, Nat.ltb_ge. lia.
Qed.

(** The item popped from a bucket has the highest sender priority of the
    bucket, and among those of that priority the least sequence number. *)
Lemma heapPop_lessFrom_highest (h rest : list FromItem) (x y : FromItem) :
  heapPop lessFrom h = Some (x, rest) -> y ∈ h ->
  (SenderPriority y < SenderPriority x)%N
  \/ (SenderPriority y = SenderPriority x /\ FromSeq x <= FromSeq y).
Proof.
  intros Hpop Hy. apply lessFrom_false.
  revert y Hy. apply (heapPop_least lessFrom) with (rest := rest); [| | | done].
  - intros a. apply lessFrom_false. lia.
  - intros a b Hab. apply lessFrom_false.
    destruct (lessFrom b a) eqn:Hba; [| by apply lessFrom_false].
    unfold lessFrom in Hab, Hba.
    apply orb_true_iff in Hab. apply orb_true_iff in Hba.
    rewrite andb_true_iff, N.ltb_lt, N.eqb_eq, Nat.ltb_lt in Hab, Hba. lia.
  - intros a b c Hab Hbc. apply lessFrom_false.
    apply lessFrom_false in Hab. apply lessFrom_false in Hbc. lia.
Qed.

(** The bucket popped from the queue has the highest receiver priority,
    and among those of that priority the least sequence number. *)
Lemma heapPop_lessTo_highest (h rest : list ToItem) (x y : ToItem) :
  heapPop lessTo h = Some (x, rest) -> y ∈ h ->
  (ReceiverPriority y < ReceiverPriority x)%N
  \/ (ReceiverPriority y = ReceiverPriority x /\ ToSeq x <= ToSeq y).
Proof.
  intros Hpop Hy. apply lessTo_false.
  revert y Hy. apply (heapPop_least lessTo) with (rest := rest); [| | | done].
  - intros a. apply lessTo_false. lia.
  - intros a b Hab. apply lessTo_false.
    destruct (lessTo b a) eqn:Hba; [| by apply lessTo_false].
    unfold lessTo in Hab, Hba.
    apply orb_true_iff in Hab. apply orb_true_iff in Hba.
    rewrite andb_true_iff, N.ltb_lt, N.eqb_eq, Nat.ltb_lt in Hab, Hba. lia.
  - intros a b c Hab Hbc. apply lessTo_false.
    apply lessTo_false in Hab. apply lessTo_false in Hbc. lia.
Qed.

Lemma Len_Items (q : PriorityToQueue) : Len q = length (Items q).
Proof.
  unfold Len, Items. induction (Buckets q) as [| b bs IH]; simpl; [done |].
  rewrite length_app. by rewrite IH.
Qed.

Lemma nonEmptyBuckets_Forall (q : PriorityToQueue) :
  nonEmptyBuckets q = true <-> Forall (fun b => Value b <> []) (Buckets q).
Proof.
  unfold nonEmptyBuckets. rewrite forallb_forall, Forall_forall.
  split; intros Hall b Hb.
  - apply list_elem_of_In in Hb. apply Hall in Hb. apply Nat.ltb_lt in Hb.
    destruct (Value b); [simpl in Hb; lia | done].
  - apply list_elem_of_In in Hb. apply Hall in Hb. apply Nat.ltb_lt.
    destruct (Value b); [done | simpl; lia].
Qed.

(** On a queue without empty buckets [Len] is 0 exactly when the
    top-level heap has no element. *)
Lemma Len_zero_buckets (q : PriorityToQueue) :
  nonEmptyBuckets q = true -> (Len q = 0 <-> Buckets q = []).
Proof.
  intros Hwf. apply nonEmptyBuckets_Forall in Hwf. unfold Len. split.
  - destruct (Buckets q) as [| b bs]; [done |].
    apply Forall_cons in Hwf as [Hb _]. simpl. destruct (Value b); [done | simpl; lia].
  - by intros ->.
Qed.

Lemma insertInto_Items (item : FromItem) (r : string) (bs bs' : list ToItem) :
  insertInto item r bs = Some bs' ->
  concat (map Value bs') ≡ₚ item :: concat (map Value bs).
Proof.
  revert bs'. induction bs as [| b bs IH]; intros bs'; simpl; [done |].
  case_decide.
  - intros [= <-]. simpl. rewrite <- app_assoc. simpl.
    symmetry. apply Permutation_middle.
  - destruct (insertInto item r bs) as [bs1 |]; simpl; [| done].
    intros [= <-]. simpl. rewrite (IH bs1 eq_refl).
    by rewrite Permutation_middle.
Qed.

Lemma insertInto_nonEmpty (item : FromItem) (r : string) (bs bs' : list ToItem) :
  insertInto item r bs = Some bs' ->
  Forall (fun b => Value b <> []) bs -> Forall (fun b => Value b <> []) bs'.
Proof.
  revert bs'. induction bs as [| b bs IH]; intros bs'; simpl; [done |].
  intros Hins Hall. apply Forall_cons in Hall as [Hb Hbs]. case_decide.
  - injection Hins as <-. constructor; [| done]. simpl. by destruct (Value b).
  - destruct (insertInto item r bs) as [bs1 |]; simpl in Hins; [| done].
    injection Hins as <-. constructor; auto.
Qed.

Lemma Items_InsertNew (v : ledger.AccountBlock) (rp sp : N) (q : PriorityToQueue) :
  Items (InsertNew v rp sp q)
  ≡ₚ {| Block := v; SenderPriority := sp; FromSeq := NextSeq q |} :: Items q.
Proof.
  unfold Items, InsertNew.
  destruct (insertInto _ _ (Buckets q)) as [bs |] eqn:Hins; simpl.
  - by apply insertInto_Items in Hins.
  - rewrite map_app, concat_app. simpl.
    by rewrite <- Permutation_cons_append.
Qed.

Lemma InsertNew_nonEmpty (v : ledger.AccountBlock) (rp sp : N) (q : PriorityToQueue) :
  nonEmptyBuckets q = true -> nonEmptyBuckets (InsertNew v rp sp q) = true.
Proof.
  rewrite !nonEmptyBuckets_Forall. unfold InsertNew. intros Hq.
  destruct (insertInto _ _ (Buckets q)) as [bs |] eqn:Hins; simpl.
  - by eapply insertInto_nonEmpty.
  - apply Forall_app. split; [done |]. by constructor.
Qed.

Lemma InsertNew_Len (v : ledger.AccountBlock) (rp sp : N) (q : PriorityToQueue) :
  Len (InsertNew v rp sp q) = S (Len q).
Proof. by rewrite !Len_Items, Items_InsertNew. Qed.

Lemma pairCount_InsertNew (from to : string) (v : ledger.AccountBlock) (rp sp : N)
    (q : PriorityToQueue) :
  pairCount from to (Some (InsertNew v rp sp q))
  = (if hasPair from to v then 1 else 0) + pairCount from to (Some q).
Proof.
  unfold pairCount; simpl. rewrite Items_InsertNew, filter_cons; simpl.
  destruct (hasPair from to v); case_decide; done.
Qed.

End QueueFacts.

(** ** The paging fetch *)

Section FetchFacts.

Context `{Env}.
Import ContractWorker.

(** The blocks of [bl] whose pair is not blacklisted in [w]. *)
Local Abbreviation kept w bl := (filter (fun v => notBlacklisted w v = true) bl).

Lemma insertAll_app (sh : string) (vs1 vs2 : list ledger.AccountBlock)
    (q : model.PriorityToQueue) :
  insertAll sh (vs1 ++ vs2) q = insertAll sh vs2 (insertAll sh vs1 q).
Proof. unfold insertAll. apply fold_left_app. Qed.

Lemma insertBlocks_Some (sh : string) (w : ContractWorker)
    (bl : list ledger.AccountBlock) (q : model.PriorityToQueue) (count : nat) :
  insertBlocks sh w bl (Some q, count)
  = Done (Some (insertAll sh (kept w bl) q), count + length (kept w bl)).
Proof.
  revert q count. induction bl as [| v bl IH]; intros q count; simpl.
  - by rewrite Nat.add_0_r.
  - rewrite filter_cons.
    destruct (decide (notBlacklisted w v = true)) as [Hk | Hk];
      unfold notBlacklisted in Hk.
    + apply negb_true_iff in Hk. rewrite Hk. simpl.
      rewrite IH. simpl. do 2 f_equal. lia.
    + apply not_true_is_false, negb_false_iff in Hk. rewrite Hk. simpl.
      apply IH.
Qed.

Lemma insertBlocks_None (sh : string) (w : ContractWorker)
    (bl : list ledger.AccountBlock) (count : nat) (st : option model.PriorityToQueue * nat) :
  insertBlocks sh w bl (None, count) = Done st ->
  st = (None, count) /\ kept w bl = [].
Proof.
  revert count. induction bl as [| v bl IH]; intros count; simpl.
  - by intros [= <-].
  - rewrite filter_cons.
    destruct (decide (notBlacklisted w v = true)) as [Hk | Hk];
      unfold notBlacklisted in Hk.
    + apply negb_true_iff in Hk. rewrite Hk. simpl. done.
    + apply not_true_is_false, negb_false_iff in Hk. rewrite Hk. simpl.
      apply IH.
Qed.

(** What a run of the inner loop over a page does to the queue pointer. *)
Lemma insertBlocks_spec (sh : string) (w : ContractWorker)
    (bl : list ledger.AccountBlock) (qo qo' : option model.PriorityToQueue)
    (count count' : nat) :
  insertBlocks sh w bl (qo, count) = Done (qo', count') ->
  qo' = insertAll sh (kept w bl) <$> qo
  /\ (qo = None -> kept w bl = []).
Proof.
  destruct qo as [q |].
  - rewrite insertBlocks_Some. by intros [= <- <-].
  - intros Hrun. apply insertBlocks_None in Hrun as [[= -> ->] Hnil]. done.
Qed.

Lemma pageOf_ends (k : nat) (addr : string) :
  pageEnds (GetUnconfirmedBlocks k 1 CONTRACT_FETCH_SIZE addr) = true ->
  pageOf (k, addr) = [].
Proof.
  unfold pageOf; simpl.
  by destruct (GetUnconfirmedBlocks k 1 CONTRACT_FETCH_SIZE addr) as [[bl |] [e |]].
Qed.

(** The pages [k], [k+1], ... of one address. *)
Local Abbreviation pagesFrom addr k n := ((fun j : nat => (j, addr)) <$> seq k n).

(** A request that ends the paging of an address leaves the queue as it
    is: neither an error nor a nil page inserts anything. *)
Lemma pageLoop_ends (fuel : nat) (sh : string) (w : ContractWorker) (addr : string)
    (k count : nat) (qo : option model.PriorityToQueue) (world : World) :
  pageEnds (GetUnconfirmedBlocks k 1 CONTRACT_FETCH_SIZE addr) = true ->
  pageLoop (S fuel) sh w addr k count qo world = Done (qo, storeCall k addr world).
Proof.
  simpl. by destruct (GetUnconfirmedBlocks k 1 CONTRACT_FETCH_SIZE addr) as [[bl |] [e |]].
Qed.

Lemma pageLoop_spec (fuel : nat) (sh : string) (w : ContractWorker) (addr : string)
    (k count : nat) (qo qo' : option model.PriorityToQueue) (world world' : World) :
  pageLoop fuel sh w addr k count qo world = Done (qo', world') ->
  exists n,
    world' = addCalls (pagesFrom addr k (S n)) world
    /\ qo' = insertAll sh (kept w (readBlocks (pagesFrom addr k (S n)))) <$> qo
    /\ (qo = None -> kept w (readBlocks (pagesFrom addr k (S n))) = []).
Proof.
  revert k count qo world.
  induction fuel as [| fuel IH]; intros k count qo world; simpl; [done |].
  destruct (GetUnconfirmedBlocks k 1 CONTRACT_FETCH_SIZE addr) as [blockList err] eqn:Hget.
  assert (Hend : pageEnds (blockList, err) = true ->
                 Done (qo, storeCall k addr world) = Done (qo', world') ->
                 exists n,
                   world' = addCalls (pagesFrom addr k (S n)) world
                   /\ qo' = insertAll sh (kept w (readBlocks (pagesFrom addr k (S n)))) <$> qo
                   /\ (qo = None -> kept w (readBlocks (pagesFrom addr k (S n))) = [])).
  { intros Hends [= <- <-]. exists 0. simpl. unfold readBlocks; simpl.
    rewrite pageOf_ends by (by rewrite Hget). simpl.
    split; [done |]. split; [by destruct qo |]. done. }
  destruct blockList as [blockList |]; [| by apply Hend].
  destruct err as [e |]; [by apply Hend |]. clear Hend.
  intros Hrun. apply bind_Done in Hrun as ([qo1 count1] & Hins & Hrun).
  apply insertBlocks_spec in Hins as [-> Hnil1].
  assert (Hpage : pageOf (k, addr) = blockList).
  { unfold pageOf; simpl. by rewrite Hget. }
  destruct (count1 <? CONTRACT_FETCH_SIZE).
  - apply IH in Hrun as (n & -> & -> & Hnil2). exists (S n).
    change (pagesFrom addr k (S (S n))) with ((k, addr) :: pagesFrom addr (S k) (S n)).
    unfold readBlocks in *. rewrite map_cons, concat_cons, Hpage, filter_app.
    split; [| split].
    + by rewrite storeCall_addCalls, addCalls_app.
    + destruct qo as [q |]; simpl; [| done]. by rewrite insertAll_app.
    + intros ->. rewrite (Hnil1 eq_refl). simpl. apply (Hnil2 eq_refl).
  - injection Hrun as <- <-. exists 0. simpl.
    unfold readBlocks; simpl. rewrite Hpage, app_nil_r. done.
Qed.

Lemma scannedBy_app (c1 c2 : list (nat * string)) :
  scannedBy (c1 ++ c2) = scannedBy c1 ++ scannedBy c2.
Proof. unfold scannedBy. by rewrite filter_app, fmap_app. Qed.

Lemma scannedBy_later_pages (addr : string) (k n : nat) :
  0 < k -> scannedBy (pagesFrom addr k n) = [].
Proof.
  revert k. induction n as [| n IH]; intros k Hk; simpl; [done |].
  unfold scannedBy in *. rewrite filter_cons_False by (simpl; lia).
  apply IH. lia.
Qed.

Lemma scannedBy_pages (addr : string) (n : nat) :
  scannedBy (pagesFrom addr 0 (S n)) = [addr].
Proof.
  change (pagesFrom addr 0 (S n)) with ((0, addr) :: pagesFrom addr 1 n).
  change ((0, addr) :: pagesFrom addr 1 n) with ([(0, addr)] ++ pagesFrom addr 1 n).
  rewrite scannedBy_app, scannedBy_later_pages by lia. done.
Qed.

Lemma readBlocks_app (c1 c2 : list (nat * string)) :
  readBlocks (c1 ++ c2) = readBlocks c1 ++ readBlocks c2.
Proof. unfold readBlocks. by rewrite map_app, concat_app. Qed.

Lemma insertAll_fmap_app (sh : string) (vs1 vs2 : list ledger.AccountBlock)
    (qo : option model.PriorityToQueue) :
  insertAll sh vs2 <$> (insertAll sh vs1 <$> qo) = insertAll sh (vs1 ++ vs2) <$> qo.
Proof. destruct qo as [q |]; simpl; [| done]. by rewrite insertAll_app. Qed.

(** The addresses the outer loop still has to scan when it is at [i]. *)
Local Abbreviation rest w i :=
  (take (CONTRACT_TASK_SIZE - (i - lastAddrIndex w)) (drop i (contractAddressList w))).

Lemma addrLoop_spec (fuel : nat) (sh : string) (w : ContractWorker) (i i' : nat)
    (qo qo' : option model.PriorityToQueue) (world world' : World) :
  lastAddrIndex w <= i ->
  addrLoop fuel sh w i qo world = Done (i', qo', world') ->
  i' = i + length (rest w i)
  /\ exists calls,
       world' = addCalls calls world
       /\ scannedBy calls = rest w i
       /\ qo' = insertAll sh (kept w (readBlocks calls)) <$> qo
       /\ (qo = None -> kept w (readBlocks calls) = []).
Proof.
  revert i qo world.
  induction fuel as [| fuel IH]; intros i qo world Hle; simpl; [done |].
  destruct ((i <? length (contractAddressList w))
            && (i - lastAddrIndex w <? CONTRACT_TASK_SIZE)) eqn:Hcond.
  - apply andb_true_iff in Hcond as [Hi Ht].
    apply Nat.ltb_lt in Hi. apply Nat.ltb_lt in Ht.
    destruct (contractAddressList w !! i) as [addr |] eqn:Hlook;
      [| apply lookup_ge_None in Hlook; lia].
    intros Hrun. apply bind_Done in Hrun as ([qo1 world1] & Hpage & Hrun).
    apply pageLoop_spec in Hpage as (n & Hw1 & Hq1 & Hnil1).
    apply IH in Hrun as (Hi' & calls & Hw' & Hscan & Hq' & Hnil2); [| lia].
    rewrite (drop_S _ _ _ Hlook).
    replace (CONTRACT_TASK_SIZE - (i - lastAddrIndex w))
      with (S (CONTRACT_TASK_SIZE - (S i - lastAddrIndex w))) by lia.
    rewrite firstn_cons. split; [simpl; lia |].
    exists (((fun j : nat => (j, addr)) <$> seq 0 (S n)) ++ calls).
    rewrite scannedBy_app, scannedBy_pages, Hscan, readBlocks_app, filter_app.
    split; [| split; [| split]].
    + by rewrite Hw', Hw1, addCalls_app.
    + done.
    + by rewrite Hq', Hq1, insertAll_fmap_app.
    + intros ->. rewrite (Hnil1 eq_refl). simpl. apply Hnil2. by rewrite Hq1.
  - intros [= <- <- <-].
    assert (Hnil : rest w i = []).
    { apply andb_false_iff in Hcond as [Hi | Ht].
      - apply Nat.ltb_ge in Hi. by rewrite drop_ge, take_nil.
      - apply Nat.ltb_ge in Ht.
        by replace (CONTRACT_TASK_SIZE - (i - lastAddrIndex w)) with 0 by lia. }
    rewrite Hnil. split; [simpl; lia |].
    exists []. rewrite addCalls_nil. unfold readBlocks; simpl.
    repeat split. by destruct qo.
Qed.

(** What one call of [FetchNewFromDb] that returns has done: it paged
    through the addresses of its batch, inserted the blocks it read whose
    pair is not blacklisted, moved the cursor behind the batch, or to 0
    when the batch reaches the end of the list, and reports the latter. *)
Lemma FetchNewFromDb_spec (fuel : nat) (w w' : ContractWorker) (world world' : World)
    (full : bool) :
  FetchNewFromDb fuel w world = Done (full, w', world') ->
  let i := lastAddrIndex w + length (batch w) in
  let sh := producer.SnapshotHash (accEvent w) in
  full = (length (contractAddressList w) <=? i)
  /\ exists calls,
       world' = addCalls calls world
       /\ scannedBy calls = batch w
       /\ w' = set_lastAddrIndex (if full then 0 else i)
                 (set_priorityToQueue
                    (insertAll sh (kept w (readBlocks calls)) <$> priorityToQueue w) w)
       /\ (priorityToQueue w = None -> kept w (readBlocks calls) = []).
Proof.
  unfold FetchNewFromDb. intros Hrun.
  apply bind_Done in Hrun as ([[i qo] world1] & Hloop & Hrun).
  apply addrLoop_spec in Hloop as (Hi & calls & Hw1 & Hscan & Hq & Hnil); [| done].
  rewrite Nat.sub_diag, Nat.sub_0_r in Hi, Hscan. fold (batch w) in Hi, Hscan.
  simpl in Hrun. cbv zeta. rewrite <- Hi.
  destruct (length (contractAddressList w) <=? i); injection Hrun as <- <- <-;
    (split; [done |]); exists calls; subst qo; done.
Qed.

(** *** Fuel that is enough *)

Lemma pagesEndBy_elim (bound : nat) (addr : string) :
  pagesEndBy bound addr = true ->
  exists n, n <= bound
            /\ pageEnds (GetUnconfirmedBlocks n 1 CONTRACT_FETCH_SIZE addr) = true.
Proof.
  unfold pagesEndBy. intros Hex. apply existsb_exists in Hex as (n & Hin & Hn).
  apply in_seq in Hin. exists n. split; [lia | done].
Qed.

Lemma storeBoundedBy_elim (bound : nat) (w : ContractWorker) (i : nat) (addr : string) :
  storeBoundedBy bound w = true ->
  contractAddressList w !! i = Some addr ->
  pagesEndBy bound addr = true.
Proof.
  unfold storeBoundedBy. intros Hall Hlook.
  rewrite forallb_forall in Hall. apply Hall.
  apply list_elem_of_In. by eapply list_elem_of_lookup_2.
Qed.

Lemma pageLoop_total (sh : string) (w : ContractWorker) (addr : string) (n : nat) :
  pageEnds (GetUnconfirmedBlocks n 1 CONTRACT_FETCH_SIZE addr) = true ->
  forall (d k fuel count : nat) (q : model.PriorityToQueue) (world : World),
    k + d = n -> S d <= fuel ->
    exists q' world',
      pageLoop fuel sh w addr k count (Some q) world = Done (Some q', world').
Proof.
  intros Hn. induction d as [| d IH]; intros k fuel count q world Hk Hfuel;
    (destruct fuel as [| fuel]; [lia |]).
  - replace k with n by lia. rewrite pageLoop_ends by done. eauto.
  - simpl.
    destruct (GetUnconfirmedBlocks k 1 CONTRACT_FETCH_SIZE addr) as [[bl |] [e |]];
      eauto.
    rewrite insertBlocks_Some. simpl.
    destruct (_ <? _); [| eauto]. apply IH; lia.
Qed.

Lemma addrLoop_total (sh : string) (w : ContractWorker) (bound : nat) :
  storeBoundedBy bound w = true ->
  forall (m i fuel : nat) (q : model.PriorityToQueue) (world : World),
    length (contractAddressList w) - i <= m ->
    m + bound + 2 <= fuel ->
    exists i' q' world',
      addrLoop fuel sh w i (Some q) world = Done (i', Some q', world').
Proof.
  intros Hstore. induction m as [| m IH]; intros i fuel q world Hm Hfuel;
    (destruct fuel as [| fuel]; [lia |]); simpl.
  - rewrite (proj2 (Nat.ltb_ge i _)) by lia. simpl. eauto.
  - destruct ((i <? length (contractAddressList w))
              && (i - lastAddrIndex w <? CONTRACT_TASK_SIZE)) eqn:Hcond; [| eauto].
    apply andb_true_iff in Hcond as [Hi _]. apply Nat.ltb_lt in Hi.
    destruct (contractAddressList w !! i) as [addr |] eqn:Hlook;
      [| apply lookup_ge_None in Hlook; lia].
    destruct (pagesEndBy_elim bound addr) as (n & Hle & Hn);
      [by eapply storeBoundedBy_elim |].
    destruct (pageLoop_total sh w addr n Hn n 0 fuel 0 q world) as (q1 & world1 & Hpage);
      [lia | lia |].
    rewrite Hpage. simpl. apply IH; lia.
Qed.

Lemma FetchNewFromDb_total (bound fuel : nat) (w : ContractWorker)
    (q : model.PriorityToQueue) (world : World) :
  priorityToQueue w = Some q ->
  storeBoundedBy bound w = true ->
  length (contractAddressList w) + bound + 2 <= fuel ->
  exists full w' world', FetchNewFromDb fuel w world = Done (full, w', world').
Proof.
  intros Hq Hstore Hfuel. unfold FetchNewFromDb. rewrite Hq.
  destruct (addrLoop_total (producer.SnapshotHash (accEvent w)) w bound Hstore
              (length (contractAddressList w)) (lastAddrIndex w) fuel q world)
    as (i & q' & world' & ->); [lia | lia |].
  simpl. destruct (_ <=? _); eauto.
Qed.

(** *** What the inserted blocks do to the queue *)

Lemma insertAll_cons (sh : string) (v : ledger.AccountBlock)
    (vs : list ledger.AccountBlock) (q : model.PriorityToQueue) :
  insertAll sh (v :: vs) q
  = insertAll sh vs
      (model.InsertNew v (GetAccountQuota (ledger.ToAddress v) sh)
         (GetAccountQuota (ledger.AccountAddress v) sh) q).
Proof. reflexivity. Qed.

Lemma pairCount_insertAll (from to sh : string) (vs : list ledger.AccountBlock)
    (q : model.PriorityToQueue) :
  pairCount from to (Some (insertAll sh vs q))
  = length (filter (fun v => hasPair from to v = true) vs) + pairCount from to (Some q).
Proof.
  revert q. induction vs as [| v vs IH]; intros q; [done |].
  rewrite insertAll_cons, IH, pairCount_InsertNew, filter_cons.
  destruct (hasPair from to v); case_decide; simpl; try done; lia.
Qed.

Lemma Items_insertAll_old (sh : string) (vs : list ledger.AccountBlock)
    (q : model.PriorityToQueue) (it : model.FromItem) :
  it ∈ model.Items q -> it ∈ model.Items (insertAll sh vs q).
Proof.
  revert q. induction vs as [| v vs IH]; intros q Hin; [done |].
  rewrite insertAll_cons. apply IH. rewrite Items_InsertNew. by right.
Qed.

Lemma Items_insertAll_new (sh : string) (vs : list ledger.AccountBlock)
    (q : model.PriorityToQueue) (v : ledger.AccountBlock) :
  v ∈ vs -> exists it, it ∈ model.Items (insertAll sh vs q) /\ model.Block it = v.
Proof.
  revert q. induction vs as [| v' vs IH]; intros q Hin; [by apply elem_of_nil in Hin |].
  rewrite insertAll_cons. apply elem_of_cons in Hin as [-> | Hin]; [| by apply IH].
  eexists. split; [apply Items_insertAll_old; rewrite Items_InsertNew; left |]. done.
Qed.

Lemma Items_insertAll_inv (sh : string) (vs : list ledger.AccountBlock)
    (q : model.PriorityToQueue) (it : model.FromItem) :
  it ∈ model.Items (insertAll sh vs q) -> it ∈ model.Items q \/ model.Block it ∈ vs.
Proof.
  revert q. induction vs as [| v vs IH]; intros q Hin; [by left |].
  rewrite insertAll_cons in Hin. apply IH in Hin as [Hin | Hin].
  - rewrite Items_InsertNew in Hin. apply elem_of_cons in Hin as [-> | Hin].
    + right. simpl. left.
    + by left.
  - right. by right.
Qed.

Lemma insertAll_nonEmpty (sh : string) (vs : list ledger.AccountBlock)
    (q : model.PriorityToQueue) :
  model.nonEmptyBuckets q = true -> model.nonEmptyBuckets (insertAll sh vs q) = true.
Proof.
  revert q. induction vs as [| v vs IH]; intros q Hq; [done |].
  rewrite insertAll_cons. by apply IH, InsertNew_nonEmpty.
Qed.

Lemma insertAll_Len_pos (sh : string) (vs : list ledger.AccountBlock)
    (q : model.PriorityToQueue) :
  vs <> [] -> model.Len (insertAll sh vs q) <> 0.
Proof.
  intros Hvs Hlen. destruct vs as [| v vs]; [done |].
  destruct (Items_insertAll_new sh (v :: vs) q v) as (it & Hit & _); [left |].
  rewrite Len_Items in Hlen. apply length_zero_iff_nil in Hlen.
  rewrite Hlen in Hit. by apply elem_of_nil in Hit.
Qed.

Lemma readBlocks_elem (calls : list (nat * string)) (v : ledger.AccountBlock) :
  v ∈ readBlocks calls <->
  exists c bl, c ∈ calls
               /\ GetUnconfirmedBlocks c.1 1 CONTRACT_FETCH_SIZE c.2 = (Some bl, None)
               /\ v ∈ bl.
Proof.
  unfold readBlocks. rewrite list_elem_of_In, in_concat. split.
  - intros (l & Hl & Hv). apply in_map_iff in Hl as (c & <- & Hc).
    unfold pageOf in Hv.
    destruct (GetUnconfirmedBlocks c.1 1 CONTRACT_FETCH_SIZE c.2)
      as [[bl |] [e |]] eqn:Hget; try done.
    exists c, bl. by rewrite !list_elem_of_In.
  - intros (c & bl & Hc & Hget & Hv). exists bl. rewrite <- !list_elem_of_In.
    split; [| done]. apply list_elem_of_In, in_map_iff. exists c.
    split; [by unfold pageOf; rewrite Hget | by apply list_elem_of_In].
Qed.

Lemma kept_blacklisted (w : ContractWorker) (from to : string)
    (l : list ledger.AccountBlock) :
  isInBlackList w from to = true ->
  filter (fun v => hasPair from to v = true) (kept w l) = [].
Proof.
  intros Hbl. induction l as [| v l IH]; [done |].
  rewrite filter_cons. case_decide as Hk; [| done].
  rewrite filter_cons_False; [done |].
  unfold hasPair. intros Hp. apply andb_true_iff in Hp as [Hf Ht].
  apply bool_decide_eq_true in Hf. apply bool_decide_eq_true in Ht.
  unfold notBlacklisted in Hk. rewrite Hf, Ht, Hbl in Hk. done.
Qed.

Lemma kept_not_blacklisted (w : ContractWorker) (from to : string)
    (l : list ledger.AccountBlock) (v : ledger.AccountBlock) :
  isInBlackList w from to = false ->
  v ∈ l -> hasPair from to v = true -> v ∈ kept w l.
Proof.
  intros Hbl Hv Hp. apply list_elem_of_filter. split; [| done].
  unfold hasPair in Hp. apply andb_true_iff in Hp as [Hf Ht].
  apply bool_decide_eq_true in Hf. apply bool_decide_eq_true in Ht.
  unfold notBlacklisted. by rewrite Hf, Ht, Hbl.
Qed.

Lemma isInBlackList_add (w : ContractWorker) (from to : string) :
  isInBlackList (addIntoBlackList from to w) from to = true.
Proof.
  unfold isInBlackList, addIntoBlackList; simpl. by rewrite lookup_insert_eq.
Qed.

Lemma isInBlackList_delete (w : ContractWorker) (from to : string) :
  isInBlackList (deleteBlackListItem from to w) from to = false.
Proof.
  unfold isInBlackList, deleteBlackListItem; simpl. by rewrite lookup_delete_eq.
Qed.

(** With a queue behind the pointer and a store whose paging ends for
    every bound address, a call with enough fuel returns, and this is
    what it returns. *)
Lemma FetchNewFromDb_returns (bound fuel : nat) (w : ContractWorker)
    (q : model.PriorityToQueue) (world : World) :
  priorityToQueue w = Some q ->
  storeBoundedBy bound w = true ->
  length (contractAddressList w) + bound + 2 <= fuel ->
  exists calls,
    let i := lastAddrIndex w + length (batch w) in
    let full := length (contractAddressList w) <=? i in
    let q' := insertAll (producer.SnapshotHash (accEvent w)) (kept w (readBlocks calls)) q in
    FetchNewFromDb fuel w world
    = Done (full,
            set_lastAddrIndex (if full then 0 else i) (set_priorityToQueue (Some q') w),
            addCalls calls world)
    /\ scannedBy calls = batch w.
Proof.
  intros Hq Hstore Hfuel.
  destruct (FetchNewFromDb_total bound fuel w q world Hq Hstore Hfuel)
    as (full & w' & world' & Hrun).
  destruct (FetchNewFromDb_spec _ _ _ _ _ _ Hrun) as (Hfull & calls & -> & Hscan & -> & _).
  exists calls. cbv zeta. rewrite Hrun, Hq, <- Hfull. done.
Qed.

(** C8.  A call of [FetchNewFromDb] that is given a queue, a store whose
    paging ends and enough fuel returns; it scans the bound addresses from
    the saved cursor on, a batch of at most [CONTRACT_TASK_SIZE]; it
    returns true exactly when the batch reaches the end of the list, and
    then the cursor is 0; otherwise the cursor has moved past the
    addresses scanned, where the next call begins. *)
Theorem FetchNewFromDb_cursor (bound fuel : nat) (w : ContractWorker)
    (q : model.PriorityToQueue) (world : World) :
  priorityToQueue w = Some q ->
  storeBoundedBy bound w = true ->
  length (contractAddressList w) + bound + 2 <= fuel ->
  exists full w' calls,
    FetchNewFromDb fuel w world = Done (full, w', addCalls calls world)
    /\ scannedBy calls
       = take CONTRACT_TASK_SIZE (drop (lastAddrIndex w) (contractAddressList w))
    /\ (full = true <->
        length (contractAddressList w) <= lastAddrIndex w + length (scannedBy calls))
    /\ lastAddrIndex w'
       = (if full then 0 else lastAddrIndex w + length (scannedBy calls))
    /\ contractAddressList w' = contractAddressList w.
Proof.
  intros Hq Hstore Hfuel.
  destruct (FetchNewFromDb_returns bound fuel w q world Hq Hstore Hfuel)
    as (calls & Hrun & Hscan).
  cbv zeta in Hrun. do 3 eexists. split; [exact Hrun |].
  rewrite Hscan. split; [done |]. split; [apply Nat.leb_le |]. done.
Qed.

(** C9.  An error of the store, like a nil page, ends the paging of the
    address at that request and leaves the queue as it was before the
    request, page and all; the fetch goes on with the other addresses of
    its batch and returns its boolean as ever.  After the fetch every
    queued item was queued before or comes from a page the store returned
    without an error. *)
Theorem FetchNewFromDb_store_error (bound fuel : nat) (w : ContractWorker)
    (q : model.PriorityToQueue) (world : World) :
  priorityToQueue w = Some q ->
  storeBoundedBy bound w = true ->
  length (contractAddressList w) + bound + 2 <= fuel ->
  (forall (f : nat) (sh addr : string) (k count : nat)
          (qo : option model.PriorityToQueue) (wd : World),
      pageEnds (GetUnconfirmedBlocks k 1 CONTRACT_FETCH_SIZE addr) = true ->
      pageLoop (S f) sh w addr k count qo wd = Done (qo, storeCall k addr wd))
  /\ exists full w' calls q',
       FetchNewFromDb fuel w world = Done (full, w', addCalls calls world)
       /\ scannedBy calls = batch w
       /\ full = (length (contractAddressList w)
                  <=? lastAddrIndex w + length (batch w))
       /\ priorityToQueue w' = Some q'
       /\ forall it, it ∈ model.Items q' ->
            it ∈ model.Items q
            \/ exists c bl,
                 c ∈ calls
                 /\ GetUnconfirmedBlocks c.1 1 CONTRACT_FETCH_SIZE c.2 = (Some bl, None)
                 /\ model.Block it ∈ bl.
Proof.
  intros Hq Hstore Hfuel. split.
  { intros f sh addr k count qo wd Hends. by apply pageLoop_ends. }
  destruct (FetchNewFromDb_returns bound fuel w q world Hq Hstore Hfuel)
    as (calls & Hrun & Hscan).
  cbv zeta in Hrun. do 4 eexists. split; [exact Hrun |].
  split; [done |]. split; [done |]. split; [done |].
  intros it Hit. apply Items_insertAll_inv in Hit as [Hit | Hit]; [by left |].
  right. apply list_elem_of_filter in Hit as [_ Hit]. by apply readBlocks_elem.
Qed.

(** C3.  A fetch by a worker whose blacklist holds the pair (from, to)
    leaves the number of queued items of that pair as it was, and the
    pair is in the blacklist once added.  Once the pair is deleted from
    the blacklist it is no longer in it, and a fetch then queues every
    block of that pair on the pages it reads. *)
Theorem FetchNewFromDb_blacklist (bound fuel : nat) (w : ContractWorker)
    (q : model.PriorityToQueue) (world : World) (from to : string) :
  priorityToQueue w = Some q ->
  storeBoundedBy bound w = true ->
  length (contractAddressList w) + bound + 2 <= fuel ->
  isInBlackList (addIntoBlackList from to w) from to = true
  /\ (isInBlackList w from to = true ->
      exists full w' calls,
        FetchNewFromDb fuel w world = Done (full, w', addCalls calls world)
        /\ pairCount from to (priorityToQueue w') = pairCount from to (priorityToQueue w))
  /\ isInBlackList (deleteBlackListItem from to w) from to = false
  /\ exists full w' calls,
       FetchNewFromDb fuel (deleteBlackListItem from to w) world
       = Done (full, w', addCalls calls world)
       /\ forall v, v ∈ readBlocks calls -> hasPair from to v = true ->
            exists it, it ∈ queuedItems (priorityToQueue w') /\ model.Block it = v.
Proof.
  intros Hq Hstore Hfuel.
  split; [apply isInBlackList_add |]. split; [| split; [apply isInBlackList_delete |]].
  - intros Hbl.
    destruct (FetchNewFromDb_returns bound fuel w q world Hq Hstore Hfuel)
      as (calls & Hrun & _).
    cbv zeta in Hrun. do 3 eexists. split; [exact Hrun |].
    rewrite Hq. simpl priorityToQueue.
    by rewrite pairCount_insertAll, kept_blacklisted.
  - destruct (FetchNewFromDb_returns bound fuel (deleteBlackListItem from to w) q world)
      as (calls & Hrun & _); [done | done | done |].
    cbv zeta in Hrun. do 3 eexists. split; [exact Hrun |].
    intros v Hv Hp. simpl. apply Items_insertAll_new.
    eapply kept_not_blacklisted; eauto using isInBlackList_delete.
Qed.

End FetchFacts.

(** ** The dispatch callback *)

Section DispatchFacts.

Context `{Env}.
Import ContractWorker.

Local Abbreviation kept w bl := (filter (fun v => notBlacklisted w v = true) bl).

Lemma batch_length (w : ContractWorker) :
  length (batch w)
  = CONTRACT_TASK_SIZE `min` (length (contractAddressList w) - lastAddrIndex w).
Proof. unfold batch. by rewrite length_take, length_drop. Qed.

(** A batch that reaches the end of the list is all that was left of it. *)
Lemma batch_to_end (w : ContractWorker) :
  length (contractAddressList w) <= lastAddrIndex w + length (batch w) ->
  batch w = drop (lastAddrIndex w) (contractAddressList w).
Proof.
  rewrite batch_length. intros Hle. unfold batch.
  apply take_ge. rewrite length_drop. lia.
Qed.

(** A batch that does not is a whole batch, and the rest comes after. *)
Lemma batch_then_rest (w : ContractWorker) :
  lastAddrIndex w + length (batch w) < length (contractAddressList w) ->
  length (batch w) = CONTRACT_TASK_SIZE
  /\ batch w ++ drop (lastAddrIndex w + length (batch w)) (contractAddressList w)
     = drop (lastAddrIndex w) (contractAddressList w).
Proof.
  rewrite batch_length. intros Hlt.
  assert (Hmin : CONTRACT_TASK_SIZE `min` (length (contractAddressList w) - lastAddrIndex w)
                 = CONTRACT_TASK_SIZE) by lia.
  rewrite Hmin. split; [done |].
  unfold batch. by rewrite <- drop_drop, take_drop.
Qed.

(** The loop of fetches of [dispatchTask] returns when every call moves
    the cursor, and it returns either with the cursor back at 0, having
    scanned every address from the saved cursor to the end of the list,
    or with a queue that is not empty. *)
Lemma fetchLoop_returns (bound : nat) :
  1 <= CONTRACT_TASK_SIZE ->
  forall (m fuel : nat) (w : ContractWorker) (q : model.PriorityToQueue) (world : World),
    priorityToQueue w = Some q ->
    storeBoundedBy bound w = true ->
    length (contractAddressList w) - lastAddrIndex w <= m ->
    m + length (contractAddressList w) + bound + 3 <= fuel ->
    exists calls c,
      let q' := insertAll (producer.SnapshotHash (accEvent w)) (kept w (readBlocks calls)) q in
      fetchLoop fuel w world
      = Done (set_lastAddrIndex c (set_priorityToQueue (Some q') w), addCalls calls world)
      /\ ((c = 0 /\ scannedBy calls = drop (lastAddrIndex w) (contractAddressList w))
          \/ model.Len q' <> 0).
Proof.
  intros Hsize. induction m as [| m IH]; intros fuel w q world Hq Hstore Hm Hfuel;
    (destruct fuel as [| fuel]; [lia |]);
    (destruct (FetchNewFromDb_returns bound fuel w q world Hq Hstore) as (calls1 & Hrun & Hscan1);
     [lia |]); cbv zeta in Hrun; simpl fetchLoop; rewrite Hrun; simpl;
    destruct (length (contractAddressList w) <=? lastAddrIndex w + length (batch w)) eqn:Hfull.
  - exists calls1, 0. split; [done |]. left. split; [done |].
    rewrite Hscan1. apply batch_to_end. by apply Nat.leb_le.
  - apply Nat.leb_gt in Hfull. lia.
  - exists calls1, 0. split; [done |]. left. split; [done |].
    rewrite Hscan1. apply batch_to_end. by apply Nat.leb_le.
  - apply Nat.leb_gt in Hfull.
    destruct (batch_then_rest w Hfull) as [Hlen Hrest].
    set (sh := producer.SnapshotHash (accEvent w)) in *.
    set (q1 := insertAll sh (kept w (readBlocks calls1)) q) in *.
    destruct (model.Len q1 =? 0) eqn:Hlen1; simpl.
    + set (w1 := set_lastAddrIndex (lastAddrIndex w + length (batch w))
                   (set_priorityToQueue (Some q1) w)).
      destruct (IH fuel w1 q1 (addCalls calls1 world)) as (calls2 & c & Hloop & Hexit);
        [done | done | simpl; lia | simpl; lia |].
      cbv zeta in Hloop, Hexit. rewrite Hloop.
      exists (calls1 ++ calls2), c. cbv zeta.
      rewrite readBlocks_app, filter_app, insertAll_app, addCalls_app.
      split; [done |].
      destruct Hexit as [[-> Hscan2] | Hne]; [left | by right].
      split; [done |].
      rewrite scannedBy_app, Hscan1, Hscan2. exact Hrest.
    + exists calls1, (lastAddrIndex w + length (batch w)).
      split; [done |]. right. by apply Nat.eqb_neq.
Qed.

(** With work queued, [dispatchTask] asks the store for nothing: it
    takes the best bucket off the queue and returns the best item of that
    bucket.  The other items of the bucket, [others], are not put back. *)
Lemma dispatchTask_queued (fuel index : nat) (w : ContractWorker)
    (q : model.PriorityToQueue) (world : World)
    (tItem : model.ToItem) (buckets : list model.ToItem)
    (fItem : model.FromItem) (others : list model.FromItem) :
  priorityToQueue w = Some q ->
  heapPop model.lessTo (model.Buckets q) = Some (tItem, buckets) ->
  heapPop model.lessFrom (model.Value tItem) = Some (fItem, others) ->
  let q' := {| model.Buckets := buckets; model.NextSeq := model.NextSeq q |} in
  dispatchTask fuel index w world
  = Done (Some fItem, set_priorityToQueue (Some q') w, world)
  /\ model.Len q = model.Len q' + 1 + length others.
Proof.
  intros Hq HpopTo HpopFrom q'. split.
  - assert (Hlen : (model.Len q =? 0) = false).
    { apply Nat.eqb_neq. unfold model.Len.
      rewrite (heapPop_perm _ _ _ _ HpopTo). simpl.
      rewrite (heapPop_length _ _ _ _ HpopFrom). lia. }
    unfold dispatchTask. rewrite Hq. simpl. rewrite Hlen. simpl.
    rewrite Hq. simpl. rewrite Hlen.
    unfold popToItem. rewrite Hq, HpopTo. simpl.
    rewrite (heapPop_length _ _ _ _ HpopFrom). simpl. by rewrite HpopFrom.
  - unfold model.Len. rewrite (heapPop_perm _ _ _ _ HpopTo). simpl.
    rewrite (heapPop_length _ _ _ _ HpopFrom). lia.
Qed.

(** The item [dispatchTask] returns from a queue that is not empty is the
    best item of the best bucket: no bucket has a higher receiver priority,
    or the same with an earlier sequence number, and likewise no item of
    that bucket for the sender priority. *)
Lemma dispatchTask_returns_highest (fuel index : nat) (w w' : ContractWorker)
    (q : model.PriorityToQueue) (world world' : World) (fItem : model.FromItem) :
  priorityToQueue w = Some q ->
  model.Len q <> 0 ->
  dispatchTask fuel index w world = Done (Some fItem, w', world') ->
  exists tItem,
    tItem ∈ model.Buckets q /\ fItem ∈ model.Value tItem
    /\ (forall b, b ∈ model.Buckets q ->
          (model.ReceiverPriority b < model.ReceiverPriority tItem)%N
          \/ (model.ReceiverPriority b = model.ReceiverPriority tItem
              /\ model.ToSeq tItem <= model.ToSeq b))
    /\ (forall it, it ∈ model.Value tItem ->
          (model.SenderPriority it < model.SenderPriority fItem)%N
          \/ (model.SenderPriority it = model.SenderPriority fItem
              /\ model.FromSeq fItem <= model.FromSeq it)).
Proof.
  intros Hq Hlen. apply Nat.eqb_neq in Hlen.
  unfold dispatchTask. rewrite Hq. simpl. rewrite Hlen. simpl.
  rewrite Hq. simpl. rewrite Hlen. unfold popToItem. rewrite Hq.
  destruct (heapPop model.lessTo (model.Buckets q)) as [[tItem buckets] |] eqn:HpopTo;
    [| done].
  simpl. destruct (0 <? length (model.Value tItem)); [| done].
  destruct (heapPop model.lessFrom (model.Value tItem)) as [[f others] |] eqn:HpopFrom;
    [| done].
  intros [= <- <- <-]. exists tItem.
  split; [by eapply heapPop_elem |]. split; [by eapply heapPop_elem |].
  split; intros x Hx.
  - by eapply heapPop_lessTo_highest.
  - by eapply heapPop_lessFrom_highest.
Qed.

(** The loop of fetches of [dispatchTask], entered with an empty queue,
    is left either right after a call of [FetchNewFromDb] that returned
    true and was itself entered with an empty queue, or with a queue that
    is not empty. *)
Lemma fetchLoop_exit (fuel : nat) :
  forall (w w' : ContractWorker) (q : model.PriorityToQueue) (world world' : World),
    priorityToQueue w = Some q ->
    model.Len q = 0 ->
    fetchLoop fuel w world = Done (w', world') ->
    (exists fuel0 w0 world0 q0,
        FetchNewFromDb fuel0 w0 world0 = Done (true, w', world')
        /\ priorityToQueue w0 = Some q0 /\ model.Len q0 = 0)
    \/ (exists q', priorityToQueue w' = Some q' /\ model.Len q' <> 0).
Proof.
  induction fuel as [| fuel IH]; intros w w' q world world' Hq Hlen Hrun;
    simpl in Hrun; [done |].
  apply bind_Done in Hrun as ([[full w1] world1] & Hfetch & Hrun).
  destruct full.
  - injection Hrun as <- <-. left. eauto 10.
  - apply bind_Done in Hrun as (n & Hn & Hrun).
    destruct (priorityToQueue w1) as [q1 |] eqn:Hq1; [| done].
    injection Hn as <-.
    destruct (model.Len q1 =? 0) eqn:Hlen1; simpl in Hrun.
    + apply Nat.eqb_eq in Hlen1. by eapply IH.
    + apply Nat.eqb_neq in Hlen1. injection Hrun as <- <-. right. eauto.
Qed.

(** C7.  Called with an empty queue, [dispatchTask] fetches, and with a
    store whose paging ends and a batch size of at least one it returns.
    It returns "no work" exactly when the pages it read held no block to
    insert; then its last call of [FetchNewFromDb] has returned true, for a
    completed pass, having been entered with an empty queue and leaving the
    queue as it was, the fetches have scanned every bound address from the
    saved cursor to the end of the list, and the cursor is back at 0.
    Otherwise it pops: the item returned is of a block just read, it is the
    best item of the best bucket of the queue the fetches have filled, and
    that bucket has left the queue of the worker, which is otherwise as the
    fetches have filled it. *)
Theorem dispatchTask_empty_queue (bound fuel index : nat) (w : ContractWorker)
    (q : model.PriorityToQueue) (world : World) :
  priorityToQueue w = Some q ->
  model.Len q = 0 ->
  model.nonEmptyBuckets q = true ->
  storeBoundedBy bound w = true ->
  1 <= CONTRACT_TASK_SIZE ->
  2 * length (contractAddressList w) + bound + 3 <= fuel ->
  exists r w' calls,
    dispatchTask fuel index w world = Done (r, w', addCalls calls world)
    /\ (r = None <-> kept w (readBlocks calls) = [])
    /\ (r = None ->
        lastAddrIndex w' = 0
        /\ scannedBy calls = drop (lastAddrIndex w) (contractAddressList w)
        /\ priorityToQueue w' = Some q
        /\ exists fuel0 w0 world0 q0,
             FetchNewFromDb fuel0 w0 world0 = Done (true, w', addCalls calls world)
             /\ priorityToQueue w0 = Some q0 /\ model.Len q0 = 0)
    /\ (forall fItem, r = Some fItem ->
          model.Block fItem ∈ kept w (readBlocks calls)
          /\ exists tItem q',
               let q1 :=
                 insertAll (producer.SnapshotHash (accEvent w))
                   (kept w (readBlocks calls)) q in
               priorityToQueue w' = Some q'
               /\ model.Buckets q1 ≡ₚ tItem :: model.Buckets q'
               /\ model.NextSeq q' = model.NextSeq q1
               /\ model.Len q1 = model.Len q' + length (model.Value tItem)
               /\ fItem ∈ model.Value tItem
               /\ (forall b, b ∈ model.Buckets q1 ->
                     (model.ReceiverPriority b < model.ReceiverPriority tItem)%N
                     \/ (model.ReceiverPriority b = model.ReceiverPriority tItem
                         /\ model.ToSeq tItem <= model.ToSeq b))
               /\ (forall it, it ∈ model.Value tItem ->
                     (model.SenderPriority it < model.SenderPriority fItem)%N
                     \/ (model.SenderPriority it = model.SenderPriority fItem
                         /\ model.FromSeq fItem <= model.FromSeq it))).
Proof.
  intros Hq Hlen Hwf0 Hstore Hsize Hfuel.
  destruct (fetchLoop_returns bound Hsize (length (contractAddressList w)) fuel w q world)
    as (calls & c & Hloop & Hexit); [done | done | lia | lia |].
  cbv zeta in Hloop, Hexit.
  pose proof (fetchLoop_exit fuel w _ q world _ Hq Hlen Hloop) as Hlast.
  set (vs := kept w (readBlocks calls)) in *.
  set (q1 := insertAll (producer.SnapshotHash (accEvent w)) vs q) in *.
  assert (Hitems : model.Items q = []).
  { apply length_zero_iff_nil. by rewrite <- Len_Items. }
  assert (Hwf : Forall (fun b => model.Value b <> []) (model.Buckets q1)).
  { by apply nonEmptyBuckets_Forall, insertAll_nonEmpty. }
  unfold dispatchTask. rewrite Hq. simpl. rewrite Hlen. simpl. rewrite Hloop. simpl.
  destruct (model.Len q1 =? 0) eqn:Hlen1.
  - apply Nat.eqb_eq in Hlen1.
    assert (Hvs : vs = []).
    { destruct vs as [| v vs'] eqn:Evs; [done |]. exfalso.
      by apply (insertAll_Len_pos (producer.SnapshotHash (accEvent w)) (v :: vs') q). }
    destruct Hexit as [[-> Hscan] | Hne]; [| done].
    destruct Hlast as [Hlast | (q' & Hq' & Hne)];
      [| simpl in Hq'; injection Hq' as <-; done].
    exists None, (set_lastAddrIndex 0 (set_priorityToQueue (Some q1) w)), calls.
    split; [done |]. split; [done |]. split; [| done].
    intros _. split; [done |]. split; [done |]. split; [| exact Hlast].
    simpl. subst q1. by rewrite Hvs.
  - apply Nat.eqb_neq in Hlen1. unfold popToItem. simpl.
    destruct (heapPop model.lessTo (model.Buckets q1)) as [[tItem buckets] |] eqn:HpopTo;
      [| apply heapPop_nil in HpopTo; unfold model.Len in Hlen1; by rewrite HpopTo in Hlen1].
    simpl.
    assert (HtItem : tItem ∈ model.Buckets q1) by (by eapply heapPop_elem).
    assert (Hne : model.Value tItem <> []).
    { rewrite Forall_forall in Hwf. by apply Hwf. }
    destruct (heapPop model.lessFrom (model.Value tItem)) as [[fItem others] |] eqn:HpopFrom;
      [| by apply heapPop_nil in HpopFrom].
    rewrite (heapPop_length _ _ _ _ HpopFrom). simpl.
    assert (Hblock : model.Block fItem ∈ vs).
    { assert (Hin : fItem ∈ model.Items q1).
      { unfold model.Items. apply list_elem_of_In, in_concat.
        exists (model.Value tItem). split.
        - apply in_map, list_elem_of_In, HtItem.
        - eapply list_elem_of_In, heapPop_elem, HpopFrom. }
      apply Items_insertAll_inv in Hin as [Hin | Hin]; [| done].
      rewrite Hitems in Hin. by apply elem_of_nil in Hin. }
    do 3 eexists. split; [done |]. split; [| split; [done |]].
    + split; [done |]. intros Hvs. unfold vs in Hblock. rewrite Hvs in Hblock.
      by apply elem_of_nil in Hblock.
    + intros ? [= <-]. split; [done |].
      exists tItem, {| model.Buckets := buckets; model.NextSeq := model.NextSeq q1 |}.
      cbv zeta. fold vs. fold q1.
      split; [done |]. split; [by apply heapPop_perm in HpopTo |]. split; [done |].
      split.
      { unfold model.Len. simpl. rewrite (heapPop_perm _ _ _ _ HpopTo). simpl. lia. }
      split; [by eapply heapPop_elem |].
      split; intros x Hx.
      * by eapply heapPop_lessTo_highest.
      * by eapply heapPop_lessFrom_highest.
Qed.

End DispatchFacts.

(** ** Construction, Start and Stop *)

Section LifecycleFacts.

Context `{Env}.

(** C4.  [NewContractWorker] returns an error and no worker when the
    lookup of the bound addresses fails or finds none, and a worker and no
    error when it finds some; the worker is in state [Create] with a pool
    of [CONTRACT_TASK_SIZE] nil task pointers.  In no case is a task
    allocated or started, or anything else changed outside the worker. *)
Theorem NewContractWorker_spec (accEvent : producer.AccountStartEvent) (world : World)
    (addressList : list string) (err : option string) :
  GetAddrListByGid (producer.Gid accEvent) = (addressList, err) ->
  (forall e, err = Some e ->
     ContractWorker.NewContractWorker accEvent world = ((None, Some e), world))
  /\ (err = None -> addressList = [] ->
      exists e, ContractWorker.NewContractWorker accEvent world = ((None, Some e), world))
  /\ (err = None -> addressList <> [] ->
      exists w,
        ContractWorker.NewContractWorker accEvent world = ((Some w, None), world)
        /\ contractAddressList w = addressList
        /\ status w = Create
        /\ contractTasks w = replicate CONTRACT_TASK_SIZE None).
Proof.
  intros Hget. unfold ContractWorker.NewContractWorker. rewrite Hget.
  split; [| split].
  - by intros e ->.
  - intros -> ->. simpl. eauto.
  - intros -> Hne. destruct addressList as [| a l]; [done |]. simpl. eauto.
Qed.

Lemma startTasks_spec (tasks : list (option nat)) (i : nat) (world : World) :
  ContractWorker.startTasks i tasks world
  = set_Tasks
      (Tasks world
       ++ ((fun j => {| taskIndex := j; taskRunning := true |}) <$> seq i (length tasks)))
      world.
Proof.
  revert i world. induction tasks as [| v tasks IH]; intros i world; simpl.
  - destruct world; unfold set_Tasks; simpl. by rewrite app_nil_r.
  - rewrite IH. unfold ContractTask_Start, set_Tasks; simpl.
    rewrite alter_app_r_alt by done. rewrite Nat.sub_diag. simpl.
    by rewrite <- app_assoc.
Qed.

(** C5.  [Start] on a worker that is not running subscribes the group,
    creates and starts one task for every slot of the pool, spawns the
    dispatch loop and sets the status to [Start].  On a running worker
    whose wake channel is open it sends one wake signal when the dispatch
    loop is marked sleeping and nothing when it is not, and changes
    nothing else. *)
Theorem Start_spec (w : ContractWorker) (world : World) :
  (status w <> Start ->
   exists world',
     ContractWorker.Start w world = Done (set_status Start w, world')
     /\ Listeners world' = {[ gid w ]} ∪ Listeners world
     /\ Tasks world'
        = Tasks world
          ++ ((fun i => {| taskIndex := i; taskRunning := true |})
                <$> seq 0 (length (contractTasks w)))
     /\ DispatchLoops world' = S (DispatchLoops world)
     /\ ChanOps world' = ChanOps world)
  /\ (status w = Start -> newUnconfirmedTxAlarm w = Open ->
      ContractWorker.Start w world
      = Done (w, if isSleep w then chanOp (Send newUnconfirmedTxAlarmChan) world
                 else world)).
Proof.
  split.
  - intros Hst. unfold ContractWorker.Start. rewrite decide_True by done.
    eexists. split; [done |]. rewrite startTasks_spec. done.
  - intros Hst Hopen. unfold ContractWorker.Start. rewrite decide_False by (by intros []).
    unfold ContractWorker.NewUnconfirmedTxAlarm. rewrite Hopen.
    by destruct (isSleep w).
Qed.

(** [Stop] on a stopped worker does nothing. *)
Lemma Stop_stopped (w : ContractWorker) (world : World) :
  status w = Stop -> ContractWorker.Stop w world = Done (w, world).
Proof.
  intros Hst. unfold ContractWorker.Stop. by rewrite decide_False by (by intros []).
Qed.

(** The pool slots of a worker are nil from its construction on, and
    neither [Start] nor [Stop] assigns to them. *)
Lemma Start_contractTasks (w w' : ContractWorker) (world world' : World) :
  ContractWorker.Start w world = Done (w', world') -> contractTasks w' = contractTasks w.
Proof.
  unfold ContractWorker.Start. case_decide.
  - by intros [= <- <-].
  - intros Hrun. apply bind_Done in Hrun as (? & _ & [= <- <-]). done.
Qed.

(** Stopping through nil pointers stops no task. *)
Lemma stopTasks_nil (n : nat) (world world' : World) :
  ContractWorker.stopTasks (replicate n None) world = Done world' -> world' = world.
Proof.
  induction n as [| n IH]; simpl; [by intros [= <-] |].
  destruct stopDereferencesReceiver; simpl; [done | apply IH].
Qed.

(** A [Stop] that returns on a worker whose pool slots are nil, as they are
    after [NewContractWorker] and [Start], leaves every task as it was:
    the tasks [Start] has started keep running. *)
Lemma Stop_stops_no_task (n : nat) (w w' : ContractWorker) (world world' : World) :
  contractTasks w = replicate n None ->
  ContractWorker.Stop w world = Done (w', world') ->
  Tasks world' = Tasks world.
Proof.
  intros Hnil. unfold ContractWorker.Stop. case_decide; [| by intros [= <- <-]].
  intros Hrun.
  apply bind_Done in Hrun as (world1 & Hsend & Hrun).
  apply bind_Done in Hrun as (world3 & Hclose1 & Hrun).
  apply bind_Done in Hrun as (world4 & Hrecv & Hrun).
  apply bind_Done in Hrun as (world5 & Hclose2 & Hrun).
  apply bind_Done in Hrun as (world6 & Hstop & [= <- <-]).
  simpl in Hstop. rewrite Hnil in Hstop. apply stopTasks_nil in Hstop as ->.
  unfold send, close, recv in *.
  destruct (breaker w); [| done]. injection Hsend as <-.
  destruct (newUnconfirmedTxAlarm (set_isSleep true w)); [| done]. injection Hclose1 as <-.
  injection Hrecv as <-.
  destruct (stopDispatcherListener _); [| done]. injection Hclose2 as <-.
  done.
Qed.

End LifecycleFacts.

(** ** The schedulers of the examples *)

Section Examples.

(** C1, at a queue of one bucket with two items.  The dispatch pop
    returns (R1, S2); the queue held two items and holds none afterwards:
    (R1, S1) has left the queue without being returned. *)
Theorem dispatchTask_drops_rest_of_bucket (E : Env) (fuel index : nat) (world : World) :
  model.Len twoOfR1 = 2
  /\ ContractWorker.dispatchTask fuel index (demoWorker (Some twoOfR1) ∅ 0) world
     = Done (Some {| model.Block := blockOf "S2" "R1";
                     model.SenderPriority := 8; model.FromSeq := 1 |},
             demoWorker (Some {| model.Buckets := []; model.NextSeq := 2 |}) ∅ 0,
             world).
Proof. split; reflexivity. Qed.

(** C2, at scenario A.  Two pops return (R2, S3) and (R1, S2) and leave
    the queue empty, whatever the store; with nothing in the store the
    third pop is "no work", and (R1, S1) is never returned. *)
Theorem scenarioA_pop_sequence :
  (forall (E : Env) (fuel : nat) (world : World),
     dispatchMany fuel 2 (demoWorker (Some scenarioA) ∅ 0) world
     = Done ([Some ("R2", "S3"); Some ("R1", "S2")],
             demoWorker (Some {| model.Buckets := []; model.NextSeq := 3 |}) ∅ 0,
             world))
  /\ exists w' world',
       @dispatchMany (emptyEnv true) 10 3 (demoWorker (Some scenarioA) ∅ 0) emptyWorld
       = Done ([Some ("R2", "S3"); Some ("R1", "S2"); None], w', world').
Proof.
  split.
  - intros E fuel world. reflexivity.
  - do 2 eexists. vm_compute. reflexivity.
Qed.

(** C5 as stated fails on a running worker whose dispatch loop is not
    asleep: [Start] sends no wake signal. *)
Lemma Start_running_awake_sends_no_signal :
  ~ (exists world',
       ContractWorker.Start runningWorker emptyWorld = Done (runningWorker, world')
       /\ ChanOps world' = ChanOps emptyWorld ++ [Send newUnconfirmedTxAlarmChan]).
Proof. intros (world' & Hrun & Hops). vm_compute in Hrun. by injection Hrun as <-. Qed.

(** C6, at a worker fresh from [NewContractWorker] and started.  [Start]
    has two tasks running; [Stop] goes through the two nil slots of the
    pool, so it panics if [ContractTask.Stop] dereferences its receiver,
    and otherwise ends in state [Stop] with both tasks still running. *)
Theorem Stop_leaves_started_tasks_running (nilStopPanics : bool) :
  exists w0 w1 world1,
    @ContractWorker.NewContractWorker (emptyEnv nilStopPanics) demoEvent emptyWorld
    = ((Some w0, None), emptyWorld)
    /\ ContractWorker.Start w0 emptyWorld = Done (w1, world1)
    /\ Tasks world1 = [ {| taskIndex := 0; taskRunning := true |};
                        {| taskIndex := 1; taskRunning := true |} ]
    /\ match @ContractWorker.Stop (emptyEnv nilStopPanics) w1 world1 with
       | Done (w2, world2) =>
           nilStopPanics = false /\ status w2 = Stop /\ Tasks world2 = Tasks world1
       | Panic _ => nilStopPanics = true
       | OutOfFuel => False
       end.
Proof.
  do 3 eexists. split; [reflexivity |]. split; [reflexivity |].
  split; [reflexivity |]. destruct nilStopPanics; vm_compute; done.
Qed.

(** After a restart the second [Stop] closes the wake channel that the
    first one closed. *)
Lemma Stop_after_restart_panics :
  @restartAndStop (emptyEnv false) emptyWorld = Panic "close of closed channel".
Proof. reflexivity. Qed.

(** For a group without bound addresses no worker is built, and the world
    stays as it is. *)
Lemma NewContractWorker_unbound :
  exists e,
    @ContractWorker.NewContractWorker unboundEnv demoEvent emptyWorld
    = ((None, Some e), emptyWorld).
Proof. eexists. reflexivity. Qed.

(** With the failing store the fetch asks for the first page of R1 and of
    R2, inserts nothing of what the failed requests hand back, and
    returns true, the cursor at 0. *)
Lemma FetchNewFromDb_failing_store :
  @ContractWorker.FetchNewFromDb failingEnv 5 (demoWorker (Some model.emptyQueue) ∅ 0) emptyWorld
  = Done (true, demoWorker (Some model.emptyQueue) ∅ 0,
          addCalls [(0, "R1"); (0, "R2")] emptyWorld).
Proof. reflexivity. Qed.

End Examples.

(** ** The theorems at the schedulers of the examples *)

Section Instances.

#[local] Existing Instance abEnv.

Lemma TryMakeConcernedError_spec_witness :
  let bal := "The balance is not enough" in
  let dec := "error decrypting key" in
  let lck := "the address was previously unlocked" in
  api.TryMakeConcernedError bal dec lck None = (None, false)
  /\ (forall e, api.Error e = dec ->
        api.TryMakeConcernedError bal dec lck (Some e)
        = (Some (api.rpc2Error {| api.Message := dec; api.Code := 4001 |}), true))
  /\ (forall e, api.Error e = lck ->
        api.TryMakeConcernedError bal dec lck (Some e)
        = (Some (api.rpc2Error {| api.Message := lck; api.Code := 4002 |}), true))
  /\ (forall e, api.Error e = bal ->
        api.TryMakeConcernedError bal dec lck (Some e)
        = (Some (api.rpc2Error {| api.Message := bal; api.Code := 5001 |}), true))
  /\ (forall e, api.Error e <> dec -> api.Error e <> lck -> api.Error e <> bal ->
        api.TryMakeConcernedError bal dec lck (Some e) = (Some e, false)).
Proof.
  exact (TryMakeConcernedError_spec
           "The balance is not enough" "error decrypting key"
           "the address was previously unlocked"
           ltac:(discriminate) ltac:(discriminate) ltac:(discriminate)).
Defined.

Lemma NewContractWorker_spec_witness :
  GetAddrListByGid (producer.Gid demoEvent) = (["R1"; "R2"], None)
  /\ exists w,
       ContractWorker.NewContractWorker demoEvent emptyWorld = ((Some w, None), emptyWorld)
       /\ contractAddressList w = ["R1"; "R2"]
       /\ status w = Create
       /\ contractTasks w = replicate CONTRACT_TASK_SIZE None.
Proof.
  split; [reflexivity |].
  apply (@NewContractWorker_spec abEnv demoEvent emptyWorld ["R1"; "R2"] None ltac:(reflexivity));
    [reflexivity | discriminate].
Defined.

Lemma Start_spec_witness :
  status runningWorker = Start /\ newUnconfirmedTxAlarm runningWorker = Open
  /\ ContractWorker.Start runningWorker emptyWorld = Done (runningWorker, emptyWorld).
Proof.
  split; [reflexivity |]. split; [reflexivity |].
  exact (proj2 (Start_spec runningWorker emptyWorld) ltac:(reflexivity) ltac:(reflexivity)).
Defined.

Lemma FetchNewFromDb_cursor_witness :
  let w := demoWorker (Some model.emptyQueue) ∅ 0 in
  priorityToQueue w = Some model.emptyQueue
  /\ storeBoundedBy 1 w = true
  /\ length (contractAddressList w) + 1 + 2 <= 5
  /\ exists full w' calls,
       ContractWorker.FetchNewFromDb 5 w emptyWorld = Done (full, w', addCalls calls emptyWorld)
       /\ scannedBy calls
          = take CONTRACT_TASK_SIZE (drop (lastAddrIndex w) (contractAddressList w))
       /\ (full = true <->
           length (contractAddressList w) <= lastAddrIndex w + length (scannedBy calls))
       /\ lastAddrIndex w'
          = (if full then 0 else lastAddrIndex w + length (scannedBy calls))
       /\ contractAddressList w' = contractAddressList w.
Proof.
  split; [reflexivity |]. split; [reflexivity |]. split; [simpl; lia |].
  apply (@FetchNewFromDb_cursor abEnv 1 5 (demoWorker (Some model.emptyQueue) ∅ 0)
           model.emptyQueue emptyWorld); [reflexivity | reflexivity | simpl; lia].
Defined.

Lemma FetchNewFromDb_blacklist_witness :
  let w := demoWorker (Some model.emptyQueue) {[ "S1|R1" := true ]} 0 in
  priorityToQueue w = Some model.emptyQueue
  /\ storeBoundedBy 1 w = true
  /\ length (contractAddressList w) + 1 + 2 <= 5
  /\ ContractWorker.isInBlackList w "S1" "R1" = true
  /\ (exists full w' calls,
        ContractWorker.FetchNewFromDb 5 w emptyWorld
        = Done (full, w', addCalls calls emptyWorld)
        /\ pairCount "S1" "R1" (priorityToQueue w')
           = pairCount "S1" "R1" (priorityToQueue w))
  /\ ContractWorker.isInBlackList (ContractWorker.deleteBlackListItem "S1" "R1" w) "S1" "R1"
     = false
  /\ exists full w' calls,
       ContractWorker.FetchNewFromDb 5 (ContractWorker.deleteBlackListItem "S1" "R1" w)
         emptyWorld
       = Done (full, w', addCalls calls emptyWorld)
       /\ forall v, v ∈ readBlocks calls -> hasPair "S1" "R1" v = true ->
            exists it, it ∈ queuedItems (priorityToQueue w') /\ model.Block it = v.
Proof.
  pose proof (@FetchNewFromDb_blacklist abEnv 1 5
                (demoWorker (Some model.emptyQueue) {[ "S1|R1" := true ]} 0)
                model.emptyQueue emptyWorld "S1" "R1" ltac:(reflexivity)
                ltac:(reflexivity) ltac:(simpl; lia)) as (_ & Hin & Hdel & Hafter).
  split; [reflexivity |]. split; [reflexivity |]. split; [simpl; lia |].
  split; [reflexivity |]. split; [exact (Hin ltac:(reflexivity)) |]. split; [exact Hdel |].
  exact Hafter.
Defined.

Lemma dispatchTask_empty_queue_witness :
  (exists w' calls,
      @ContractWorker.dispatchTask (emptyEnv true) 8 0
        (demoWorker (Some model.emptyQueue) ∅ 1) emptyWorld
      = Done (None, w', addCalls calls emptyWorld)
      /\ lastAddrIndex w' = 0
      /\ scannedBy calls = ["R2"]
      /\ priorityToQueue w' = Some model.emptyQueue
      /\ exists fuel0 w0 world0 q0,
           @ContractWorker.FetchNewFromDb (emptyEnv true) fuel0 w0 world0
           = Done (true, w', addCalls calls emptyWorld)
           /\ priorityToQueue w0 = Some q0 /\ model.Len q0 = 0)
  /\ (exists fItem w' calls tItem q',
        let w := demoWorker (Some model.emptyQueue) ∅ 0 in
        let q1 :=
          insertAll (producer.SnapshotHash (accEvent w))
            (filter (fun v => notBlacklisted w v = true) (readBlocks calls))
            model.emptyQueue in
        ContractWorker.dispatchTask 8 0 w emptyWorld
        = Done (Some fItem, w', addCalls calls emptyWorld)
        /\ ledger.ToAddress (model.Block fItem) = "R2"
        /\ priorityToQueue w' = Some q'
        /\ model.Buckets q1 ≡ₚ tItem :: model.Buckets q'
        /\ model.Len q1 = model.Len q' + length (model.Value tItem)
        /\ fItem ∈ model.Value tItem).
Proof.
  split.
  - destruct (@dispatchTask_empty_queue (emptyEnv true) 1 8 0
                (demoWorker (Some model.emptyQueue) ∅ 1) model.emptyQueue emptyWorld)
      as (r & w' & calls & Hrun & _ & Hnone & _);
      [reflexivity | reflexivity | reflexivity | reflexivity | simpl; lia | simpl; lia |].
    assert (Hc : exists w1 world1,
               @ContractWorker.dispatchTask (emptyEnv true) 8 0
                 (demoWorker (Some model.emptyQueue) ∅ 1) emptyWorld
               = Done (None, w1, world1)) by (do 2 eexists; lazy; reflexivity).
    destruct Hc as (w1 & world1 & Hc).
    assert (Hr : r = None) by congruence. subst r.
    destruct (Hnone eq_refl) as (Hcursor & Hscan & Hqueue & Hlast).
    exists w', calls. split; [exact Hrun |]. split; [exact Hcursor |].
    split; [exact Hscan |]. split; [exact Hqueue |]. exact Hlast.
  - destruct (@dispatchTask_empty_queue abEnv 1 8 0
                (demoWorker (Some model.emptyQueue) ∅ 0) model.emptyQueue emptyWorld)
      as (r & w' & calls & Hrun & _ & _ & Hsome);
      [reflexivity | reflexivity | reflexivity | reflexivity | simpl; lia | simpl; lia |].
    assert (Hc : exists w1 world1,
               ContractWorker.dispatchTask 8 0
                 (demoWorker (Some model.emptyQueue) ∅ 0) emptyWorld
               = Done (Some {| model.Block := blockOf "S3" "R2";
                               model.SenderPriority := 1; model.FromSeq := 2 |},
                       w1, world1)) by (do 2 eexists; lazy; reflexivity).
    destruct Hc as (w1 & world1 & Hc).
    assert (Hr : r = Some {| model.Block := blockOf "S3" "R2";
                             model.SenderPriority := 1; model.FromSeq := 2 |})
      by congruence.
    subst r.
    destruct (Hsome _ eq_refl) as (_ & tItem & q' & Hq' & Hperm & _ & Hlen & Hin & _).
    eexists _, w', calls, tItem, q'. cbv zeta.
    split; [exact Hrun |]. split; [reflexivity |]. split; [exact Hq' |].
    split; [exact Hperm |]. split; [exact Hlen |]. exact Hin.
Defined.

End Instances.

Section FailingStoreInstance.

#[local] Existing Instance failingEnv.

Lemma FetchNewFromDb_store_error_witness :
  let w := demoWorker (Some model.emptyQueue) ∅ 0 in
  priorityToQueue w = Some model.emptyQueue
  /\ storeBoundedBy 0 w = true
  /\ length (contractAddressList w) + 0 + 2 <= 5
  /\ (forall (f : nat) (sh addr : string) (k count : nat)
             (qo : option model.PriorityToQueue) (wd : World),
         pageEnds (GetUnconfirmedBlocks k 1 CONTRACT_FETCH_SIZE addr) = true ->
         ContractWorker.pageLoop (S f) sh w addr k count qo wd
         = Done (qo, storeCall k addr wd))
  /\ exists full w' calls q',
       ContractWorker.FetchNewFromDb 5 w emptyWorld = Done (full, w', addCalls calls emptyWorld)
       /\ scannedBy calls = batch w
       /\ full = (length (contractAddressList w)
                  <=? lastAddrIndex w + length (batch w))
       /\ priorityToQueue w' = Some q'
       /\ forall it, it ∈ model.Items q' ->
            it ∈ model.Items model.emptyQueue
            \/ exists c bl,
                 c ∈ calls
                 /\ GetUnconfirmedBlocks c.1 1 CONTRACT_FETCH_SIZE c.2 = (Some bl, None)
                 /\ model.Block it ∈ bl.
Proof.
  split; [reflexivity |]. split; [reflexivity |]. split; [simpl; lia |].
  apply (@FetchNewFromDb_store_error failingEnv 0 5 (demoWorker (Some model.emptyQueue) ∅ 0)
           model.emptyQueue emptyWorld); [reflexivity | reflexivity | simpl; lia].
Defined.

End FailingStoreInstance.

(** * Further properties *)

(** ** The error mapping *)

Section ConcernedErrorMore.

Import api.
Variables (bal dec lck : string).

(** Every entry of the map is filed under its own message, and is one of
    the three registered errors. *)
Lemma concerned_lookup_Some (k : string) (r : JsonRpc2Error) :
  concernedErrorMap bal dec lck !! k = Some r ->
  Message r = k
  /\ (r = ErrBalanceNotEnough bal \/ r = AddressAlreadyUnLocked lck \/ r = ErrDecryptKey dec).
Proof.
  unfold concernedErrorMap. simpl. rewrite !lookup_insert, lookup_empty.
  repeat case_decide; intros [= <-]; subst; auto.
Qed.

Lemma concerned_lookup_None (k : string) :
  concernedErrorMap bal dec lck !! k = None <-> k <> bal /\ k <> dec /\ k <> lck.
Proof.
  unfold concernedErrorMap. simpl. rewrite !lookup_insert, lookup_empty.
  repeat case_decide; subst; split; try done; intros (? & ? & ?); done.
Qed.

(** X1.  [TryMakeConcernedError] never changes the message: the error it
    returns for a non-nil error is non-nil and has the message of the
    error it was given, whether it was replaced or not. *)
Theorem TryMakeConcernedError_keeps_message (e : error) :
  exists e',
    (TryMakeConcernedError bal dec lck (Some e)).1 = Some e' /\ Error e' = Error e.
Proof.
  unfold TryMakeConcernedError.
  destruct (concernedErrorMap bal dec lck !! Error e) as [r |] eqn:Hlook; simpl.
  - apply concerned_lookup_Some in Hlook as [Hmsg _]. eauto.
  - eauto.
Qed.

(** X2.  [TryMakeConcernedError] is idempotent: given the error it has
    returned, it returns that error again, with the same flag. *)
Theorem TryMakeConcernedError_idempotent (err : option error) :
  TryMakeConcernedError bal dec lck (TryMakeConcernedError bal dec lck err).1
  = TryMakeConcernedError bal dec lck err.
Proof.
  destruct err as [e |]; [| done]. unfold TryMakeConcernedError at 2 3.
  destruct (concernedErrorMap bal dec lck !! Error e) as [r |] eqn:Hlook; simpl.
  - destruct (concerned_lookup_Some _ _ Hlook) as [Hmsg _].
    rewrite Hmsg, Hlook. done.
  - by rewrite Hlook.
Qed.

(** X3.  The flag of [TryMakeConcernedError] is true exactly for the
    errors whose message is one of the three registered messages, and the
    error returned with a true flag is one of the three registered
    [JsonRpc2Error] values, so that its code is 5001, 4002 or 4001; this
    holds even when registered messages coincide. *)
Theorem TryMakeConcernedError_flag (e : error) :
  ((TryMakeConcernedError bal dec lck (Some e)).2 = true
   <-> Error e = bal \/ Error e = dec \/ Error e = lck)
  /\ ((TryMakeConcernedError bal dec lck (Some e)).2 = true ->
      exists r,
        (TryMakeConcernedError bal dec lck (Some e)).1 = Some (rpc2Error r)
        /\ (r = ErrBalanceNotEnough bal \/ r = AddressAlreadyUnLocked lck
            \/ r = ErrDecryptKey dec)
        /\ (Code r = 5001 \/ Code r = 4002 \/ Code r = 4001)%Z).
Proof.
  unfold TryMakeConcernedError.
  destruct (concernedErrorMap bal dec lck !! Error e) as [r |] eqn:Hlook; simpl.
  - split.
    + split; [intros _ | done].
      destruct (decide (Error e = bal)); [auto |].
      destruct (decide (Error e = dec)); [auto |].
      destruct (decide (Error e = lck)); [auto |].
      assert (Hnone : concernedErrorMap bal dec lck !! Error e = None)
        by (by apply concerned_lookup_None).
      congruence.
    + intros _. exists r. split; [done |].
      destruct (concerned_lookup_Some _ _ Hlook) as [_ Hr]. split; [done |].
      destruct Hr as [-> | [-> | ->]]; simpl; auto.
  - split; [| done]. split; [done |].
    apply concerned_lookup_None in Hlook as (? & ? & ?). intros [? | [? | ?]]; done.
Qed.

End ConcernedErrorMore.

(** ** The contract worker *)

Section ContractWorkerMore.

Context `{Env}.

Local Abbreviation kept w bl := (filter (fun v => notBlacklisted w v = true) bl).

(** X4.  The blacklist is keyed by the hash of the pair alone.  After
    [addIntoBlackList] a pair is blacklisted exactly if its hash is the one
    added or it was blacklisted before; after [deleteBlackListItem] exactly
    if its hash is not the one deleted and it was blacklisted before.  So
    adding and deleting a pair leaves every pair with another hash as it
    was, and acts on every pair with the same hash. *)
Theorem blackList_add_delete (w : ContractWorker) (from to f t : string) :
  ContractWorker.isInBlackList (ContractWorker.addIntoBlackList from to w) f t
  = (bool_decide (DataListHash f t = DataListHash from to)
     || ContractWorker.isInBlackList w f t)
  /\ ContractWorker.isInBlackList (ContractWorker.deleteBlackListItem from to w) f t
     = (negb (bool_decide (DataListHash f t = DataListHash from to))
        && ContractWorker.isInBlackList w f t).
Proof.
  unfold ContractWorker.isInBlackList, ContractWorker.addIntoBlackList,
    ContractWorker.deleteBlackListItem; simpl.
  rewrite lookup_insert, lookup_delete. split.
  - case_decide as Heq; [by rewrite bool_decide_true |].
    by rewrite bool_decide_false by congruence.
  - case_decide as Heq; [by rewrite bool_decide_true |].
    by rewrite bool_decide_false by congruence.
Qed.

(** X5.  A fetch that returns has changed the queue and the cursor of the
    worker and nothing else of it, and outside the worker it has only sent
    page requests to the store: no listener, task, dispatch loop or channel
    is touched.  The cursor it leaves is 0 or an index of the address
    list, whatever the cursor was before. *)
Theorem FetchNewFromDb_frame (fuel : nat) (w w' : ContractWorker) (world world' : World)
    (full : bool) :
  ContractWorker.FetchNewFromDb fuel w world = Done (full, w', world') ->
  (lastAddrIndex w' = 0 \/ lastAddrIndex w' < length (contractAddressList w'))
  /\ set_lastAddrIndex (lastAddrIndex w) (set_priorityToQueue (priorityToQueue w) w') = w
  /\ Listeners world' = Listeners world
  /\ Tasks world' = Tasks world
  /\ DispatchLoops world' = DispatchLoops world
  /\ ChanOps world' = ChanOps world
  /\ exists calls, StoreCalls world' = StoreCalls world ++ calls.
Proof.
  intros Hrun. apply FetchNewFromDb_spec in Hrun as (Hfull & calls & -> & _ & -> & _).
  cbv zeta in Hfull. split; [| split].
  - simpl. destruct full; [by left |]. right.
    symmetry in Hfull. by apply Nat.leb_gt in Hfull.
  - by destruct w.
  - simpl. eauto 10.
Qed.

(** With a queue behind the pointer the loops of the fetch do not panic. *)

Lemma pageLoop_no_panic (fuel : nat) (sh : string) (w : ContractWorker) (addr : string)
    (k count : nat) (q : model.PriorityToQueue) (world : World) :
  (exists q' world',
      ContractWorker.pageLoop fuel sh w addr k count (Some q) world = Done (Some q', world'))
  \/ ContractWorker.pageLoop fuel sh w addr k count (Some q) world = OutOfFuel.
Proof.
  revert k count q world. induction fuel as [| fuel IH]; intros k count q world; simpl;
    [by right |].
  destruct (GetUnconfirmedBlocks k 1 CONTRACT_FETCH_SIZE addr) as [[bl |] [e |]]; eauto.
  rewrite insertBlocks_Some. simpl. destruct (_ <? _); eauto.
Qed.

Lemma addrLoop_no_panic (fuel : nat) (sh : string) (w : ContractWorker) (i : nat)
    (q : model.PriorityToQueue) (world : World) :
  (exists i' q' world',
      ContractWorker.addrLoop fuel sh w i (Some q) world = Done (i', Some q', world'))
  \/ ContractWorker.addrLoop fuel sh w i (Some q) world = OutOfFuel.
Proof.
  revert i q world. induction fuel as [| fuel IH]; intros i q world; simpl; [by right |].
  destruct ((i <? length (contractAddressList w))
            && (i - lastAddrIndex w <? CONTRACT_TASK_SIZE)) eqn:Hcond; [| eauto].
  apply andb_true_iff in Hcond as [Hi _]. apply Nat.ltb_lt in Hi.
  destruct (contractAddressList w !! i) as [addr |] eqn:Hlook;
    [| apply lookup_ge_None in Hlook; lia].
  destruct (pageLoop_no_panic fuel sh w addr 0 0 q world) as [(q1 & world1 & ->) | ->];
    simpl; [apply IH | by right].
Qed.

Lemma FetchNewFromDb_no_panic (fuel : nat) (w : ContractWorker)
    (q : model.PriorityToQueue) (world : World) :
  priorityToQueue w = Some q ->
  (exists full w' world' q',
      ContractWorker.FetchNewFromDb fuel w world = Done (full, w', world')
      /\ priorityToQueue w' = Some q')
  \/ ContractWorker.FetchNewFromDb fuel w world = OutOfFuel.
Proof.
  intros Hq. unfold ContractWorker.FetchNewFromDb. rewrite Hq.
  destruct (addrLoop_no_panic fuel (producer.SnapshotHash (accEvent w)) w
              (lastAddrIndex w) q world) as [(i & q' & world' & ->) | ->];
    simpl; [| by right].
  left. destruct (_ <=? _); eauto 10.
Qed.

Lemma fetchLoop_no_panic (fuel : nat) (w : ContractWorker)
    (q : model.PriorityToQueue) (world : World) :
  priorityToQueue w = Some q ->
  (exists w' world' q',
      ContractWorker.fetchLoop fuel w world = Done (w', world')
      /\ priorityToQueue w' = Some q')
  \/ ContractWorker.fetchLoop fuel w world = OutOfFuel.
Proof.
  revert w q world. induction fuel as [| fuel IH]; intros w q world Hq; simpl;
    [by right |].
  destruct (FetchNewFromDb_no_panic fuel w q world Hq)
    as [(full & w1 & world1 & q1 & -> & Hq1) | ->]; simpl; [| by right].
  destruct full; [eauto 10 |]. rewrite Hq1. simpl.
  destruct (negb _); [eauto 10 |]. by eapply IH.
Qed.

(** X6.  On a worker whose queue pointer is set neither [FetchNewFromDb]
    nor [dispatchTask] panics, whatever the store answers, whatever the
    cursor and whatever the fuel: the address list is never indexed out of
    range and no heap is popped when it is empty. *)
Theorem dispatch_never_panics (fuel index : nat) (w : ContractWorker)
    (q : model.PriorityToQueue) (world : World) (why : string) :
  priorityToQueue w = Some q ->
  ContractWorker.FetchNewFromDb fuel w world <> Panic why
  /\ ContractWorker.dispatchTask fuel index w world <> Panic why.
Proof.
  intros Hq. split.
  - by destruct (FetchNewFromDb_no_panic fuel w q world Hq)
      as [(? & ? & ? & ? & -> & _) | ->].
  - unfold ContractWorker.dispatchTask. rewrite Hq. simpl.
    assert (Hfetch :
      (exists w1 world1 q1,
          (if model.Len q =? 0 then ContractWorker.fetchLoop fuel w world
           else Done (w, world)) = Done (w1, world1)
          /\ priorityToQueue w1 = Some q1)
      \/ (if model.Len q =? 0 then ContractWorker.fetchLoop fuel w world
          else Done (w, world)) = OutOfFuel).
    { destruct (model.Len q =? 0); [by eapply fetchLoop_no_panic | eauto 10]. }
    destruct Hfetch as [(w1 & world1 & q1 & -> & Hq1) | ->]; [| done].
    simpl. rewrite Hq1. simpl.
    destruct (model.Len q1 =? 0) eqn:Hlen; [done |].
    unfold ContractWorker.popToItem. rewrite Hq1.
    destruct (heapPop model.lessTo (model.Buckets q1)) as [[tItem buckets] |] eqn:Hpop.
    + simpl. destruct (0 <? length (model.Value tItem)) eqn:Hpos; [| done].
      destruct (heapPop model.lessFrom (model.Value tItem)) as [[fItem others] |] eqn:Hpop2;
        [done |].
      apply heapPop_nil in Hpop2. rewrite Hpop2 in Hpos. done.
    + apply heapPop_nil in Hpop. unfold model.Len in Hlen. rewrite Hpop in Hlen. done.
Qed.

(** X7.  With work queued, in buckets none of which is empty,
    [dispatchTask] returns an item of the queue whatever the fuel, without
    a request to the store and without moving the cursor.  The item is the
    best of the best bucket: no bucket has a higher receiver priority, or
    the same with an earlier sequence number, and no item of its bucket a
    higher sender priority, or the same with an earlier sequence number. *)
Theorem dispatchTask_with_work (fuel index : nat) (w : ContractWorker)
    (q : model.PriorityToQueue) (world : World) :
  priorityToQueue w = Some q ->
  model.Len q <> 0 ->
  model.nonEmptyBuckets q = true ->
  exists fItem tItem q',
    ContractWorker.dispatchTask fuel index w world
    = Done (Some fItem, set_priorityToQueue (Some q') w, world)
    /\ tItem ∈ model.Buckets q /\ fItem ∈ model.Value tItem
    /\ model.Len q' < model.Len q
    /\ (forall b, b ∈ model.Buckets q ->
          (model.ReceiverPriority b < model.ReceiverPriority tItem)%N
          \/ (model.ReceiverPriority b = model.ReceiverPriority tItem
              /\ model.ToSeq tItem <= model.ToSeq b))
    /\ (forall it, it ∈ model.Value tItem ->
          (model.SenderPriority it < model.SenderPriority fItem)%N
          \/ (model.SenderPriority it = model.SenderPriority fItem
              /\ model.FromSeq fItem <= model.FromSeq it)).
Proof.
  intros Hq Hlen Hwf.
  destruct (heapPop model.lessTo (model.Buckets q)) as [[tItem buckets] |] eqn:HpopTo;
    [| apply heapPop_nil in HpopTo; unfold model.Len in Hlen; by rewrite HpopTo in Hlen].
  assert (HtItem : tItem ∈ model.Buckets q) by (by eapply heapPop_elem).
  assert (Hne : model.Value tItem <> []).
  { apply nonEmptyBuckets_Forall in Hwf. rewrite Forall_forall in Hwf. by apply Hwf. }
  destruct (heapPop model.lessFrom (model.Value tItem)) as [[fItem others] |] eqn:HpopFrom;
    [| by apply heapPop_nil in HpopFrom].
  destruct (dispatchTask_queued fuel index w q world tItem buckets fItem others
              Hq HpopTo HpopFrom) as [Hrun Hcount].
  cbv zeta in Hrun, Hcount. exists fItem, tItem. eexists. split; [exact Hrun |].
  split; [done |]. split; [by eapply heapPop_elem |]. split; [lia |].
  split; intros x Hx.
  - by eapply heapPop_lessTo_highest.
  - by eapply heapPop_lessFrom_highest.
Qed.

Lemma fetchPass_returns (bound : nat) :
  1 <= CONTRACT_TASK_SIZE ->
  forall (m fuel : nat) (w : ContractWorker) (q : model.PriorityToQueue) (world : World),
    priorityToQueue w = Some q ->
    storeBoundedBy bound w = true ->
    length (contractAddressList w) - lastAddrIndex w <= m ->
    m + length (contractAddressList w) + bound + 3 <= fuel ->
    exists calls,
      let q' := insertAll (producer.SnapshotHash (accEvent w)) (kept w (readBlocks calls)) q in
      fetchPass fuel w world
      = Done (set_lastAddrIndex 0 (set_priorityToQueue (Some q') w), addCalls calls world)
      /\ scannedBy calls = drop (lastAddrIndex w) (contractAddressList w).
Proof.
  intros Hsize. induction m as [| m IH]; intros fuel w q world Hq Hstore Hm Hfuel;
    (destruct fuel as [| fuel]; [lia |]);
    (destruct (FetchNewFromDb_returns bound fuel w q world Hq Hstore) as (calls1 & Hrun & Hscan1);
     [lia |]); cbv zeta in Hrun; simpl fetchPass; rewrite Hrun; simpl;
    destruct (length (contractAddressList w) <=? lastAddrIndex w + length (batch w)) eqn:Hfull.
  - exists calls1. split; [done |]. rewrite Hscan1. apply batch_to_end. by apply Nat.leb_le.
  - apply Nat.leb_gt in Hfull. lia.
  - exists calls1. split; [done |]. rewrite Hscan1. apply batch_to_end. by apply Nat.leb_le.
  - apply Nat.leb_gt in Hfull.
    destruct (batch_then_rest w Hfull) as [Hlen Hrest].
    set (sh := producer.SnapshotHash (accEvent w)) in *.
    set (q1 := insertAll sh (kept w (readBlocks calls1)) q) in *.
    set (w1 := set_lastAddrIndex (lastAddrIndex w + length (batch w))
                 (set_priorityToQueue (Some q1) w)).
    destruct (IH fuel w1 q1 (addCalls calls1 world)) as (calls2 & Hloop & Hscan2);
      [done | done | simpl; lia | simpl; lia |].
    cbv zeta in Hloop. rewrite Hloop.
    exists (calls1 ++ calls2). cbv zeta.
    rewrite readBlocks_app, filter_app, insertAll_app, addCalls_app.
    split; [done |]. rewrite scannedBy_app, Hscan1, Hscan2. exact Hrest.
Qed.

(** X8.  Calling [FetchNewFromDb] until it returns true completes a pass:
    with a batch size of at least one the calls scan every bound address
    from the saved cursor to the end of the list, each once and in the
    order of the list, and leave the cursor at 0; from cursor 0 that is the
    whole list.  The queue then holds, besides what it held, the blocks
    read whose pair is not blacklisted. *)
Theorem fetchPass_scans_list (bound fuel : nat) (w : ContractWorker)
    (q : model.PriorityToQueue) (world : World) :
  priorityToQueue w = Some q ->
  storeBoundedBy bound w = true ->
  1 <= CONTRACT_TASK_SIZE ->
  2 * length (contractAddressList w) + bound + 3 <= fuel ->
  exists w' calls,
    fetchPass fuel w world = Done (w', addCalls calls world)
    /\ lastAddrIndex w' = 0
    /\ scannedBy calls = drop (lastAddrIndex w) (contractAddressList w)
    /\ priorityToQueue w'
       = Some (insertAll (producer.SnapshotHash (accEvent w)) (kept w (readBlocks calls)) q).
Proof.
  intros Hq Hstore Hsize Hfuel.
  destruct (fetchPass_returns bound Hsize (length (contractAddressList w)) fuel w q world)
    as (calls & Hrun & Hscan); [done | done | lia | lia |].
  cbv zeta in Hrun. do 2 eexists. split; [exact Hrun |]. done.
Qed.

(** X9.  [Stop] leaves the worker unable to wake or restart.  After a
    [Stop] that did its work the worker is marked sleeping and its wake
    channel is closed, so a wake-up call panics; [Start] does not make the
    channels anew, so it restarts the worker, and the next [Stop] panics
    when it closes the wake channel again. *)
Theorem Stop_then_wake_or_restart (w w1 : ContractWorker) (world world1 world' : World) :
  status w <> Stop ->
  ContractWorker.Stop w world = Done (w1, world1) ->
  status w1 = Stop
  /\ ContractWorker.NewUnconfirmedTxAlarm w1 world' = Panic "send on closed channel"
  /\ exists w2 world2,
       ContractWorker.Start w1 world1 = Done (w2, world2)
       /\ status w2 = Start
       /\ ContractWorker.Stop w2 world2 = Panic "close of closed channel".
Proof.
  intros Hst. unfold ContractWorker.Stop at 1. rewrite decide_True by done.
  intros Hrun.
  apply bind_Done in Hrun as (wd1 & Hsend & Hrun).
  apply bind_Done in Hrun as (wd3 & Hclose1 & Hrun).
  apply bind_Done in Hrun as (wd4 & Hrecv & Hrun).
  apply bind_Done in Hrun as (wd5 & Hclose2 & Hrun).
  apply bind_Done in Hrun as (wd6 & Hstop & [= <- <-]).
  assert (Hbreaker : breaker w = Open).
  { unfold send in Hsend. by destruct (breaker w). }
  split; [done |]. split; [done |].
  unfold ContractWorker.Start. simpl.
  do 2 eexists. split; [done |]. split; [done |].
  unfold ContractWorker.Stop. simpl. rewrite Hbreaker. done.
Qed.

End ContractWorkerMore.

(** ** The auto-receive worker *)

Section AutoReceiveFacts.

(** A worker that is not stopped leaves [startWork] waiting in the
    [select], marked sleeping, once the pool has handed out its pending
    blocks. *)
Lemma startWork_parks {Pool : Type}
    (GetNextTx : string -> Pool -> option AutoReceiveWorker.Tx * Pool) (n : nat) :
  forall (fuel : nat) (w : AutoReceiveWorker.AutoReceiveWorker) (pool pool' : Pool)
         (events : list AutoReceiveWorker.Event) (txs : list AutoReceiveWorker.Tx),
    AutoReceiveWorker.status w <> Stop ->
    AutoReceiveWorker.pendingTxs GetNextTx n (AutoReceiveWorker.address w) pool
    = Some (txs, pool') ->
    n <= fuel ->
    exists events',
      AutoReceiveWorker.startWork GetNextTx fuel w pool events
      = Returns (AutoReceiveWorker.Parked, AutoReceiveWorker.set_isSleeping true w, pool',
                 events').
Proof.
  induction n as [| n IH]; intros fuel w pool pool' events txs Hst Hpending Hfuel;
    [done |].
  destruct fuel as [| fuel]; [lia |]. simpl in *.
  rewrite decide_False by done.
  destruct (GetNextTx (AutoReceiveWorker.address w) pool) as [[tx |] pool1].
  - destruct (AutoReceiveWorker.pendingTxs GetNextTx n (AutoReceiveWorker.address w) pool1)
      as [[txs1 pool2] |] eqn:Hrest; [| done].
    injection Hpending as <- <-.
    destruct (AutoReceiveWorker.skipped _ tx);
      eapply (IH fuel (AutoReceiveWorker.set_isSleeping false w)); eauto; lia.
  - injection Hpending as <- <-. eauto.
Qed.

(** X10.  The auto-receive worker can be restarted.  [Start] on a worker
    that is not running makes its three channels anew, whatever state they
    were in, and returns.  When the goroutine of [startWork] has then
    worked off the pending blocks and waits in its [select], [Stop]
    returns and leaves the worker stopped, its three channels closed and
    its address and filters as they were, so that [Start] can be called
    again.  As long as that goroutine does not wait in its [select],
    [Stop] blocks at its send on [breaker]. *)
Theorem AutoReceive_Start_then_Stop {Pool : Type}
    (GetNextTx : string -> Pool -> option AutoReceiveWorker.Tx * Pool)
    (n fuel : nat) (w : AutoReceiveWorker.AutoReceiveWorker) (pool pool' : Pool)
    (events : list AutoReceiveWorker.Event) (txs : list AutoReceiveWorker.Tx) :
  AutoReceiveWorker.status w <> Start ->
  AutoReceiveWorker.pendingTxs GetNextTx n (AutoReceiveWorker.address w) pool
  = Some (txs, pool') ->
  n <= fuel ->
  exists w1 events1 w1' events1' w2 events2,
    AutoReceiveWorker.Start w events = Returns (w1, events1)
    /\ AutoReceiveWorker.status w1 = Start
    /\ AutoReceiveWorker.Stop false w1 events1 = Blocks
    /\ AutoReceiveWorker.startWork GetNextTx fuel w1 pool events1
       = Returns (AutoReceiveWorker.Parked, w1', pool', events1')
    /\ AutoReceiveWorker.Stop true w1' events1' = Returns (w2, events2)
    /\ AutoReceiveWorker.status w2 = Stop
    /\ AutoReceiveWorker.breaker w2 = AutoReceiveWorker.closedChan
    /\ AutoReceiveWorker.newUnconfirmedTxAlarm w2 = AutoReceiveWorker.closedChan
    /\ AutoReceiveWorker.stopListener w2 = AutoReceiveWorker.closedChan
    /\ AutoReceiveWorker.filters w2 = AutoReceiveWorker.filters w
    /\ AutoReceiveWorker.address w2 = AutoReceiveWorker.address w.
Proof.
  intros Hst Hpending Hfuel.
  unfold AutoReceiveWorker.Start. rewrite decide_True by done.
  set (w1 := AutoReceiveWorker.set_status Start _).
  set (events1 := events ++ _).
  destruct (startWork_parks GetNextTx n fuel w1 pool pool' events1 txs)
    as (events1' & Hwork); [done | done | done |].
  exists w1, events1, (AutoReceiveWorker.set_isSleeping true w1), events1'.
  do 2 eexists. split; [reflexivity |]. split; [reflexivity |].
  split; [reflexivity |]. split; [exact Hwork |].
  split; [reflexivity |]. done.
Qed.

(** X11.  [Stop], and with it [Close], on a worker that has not been
    started since [NewAutoReceiveWorker] built it never returns: the
    channels of the new worker are nil, and [Stop] sends on the nil
    [breaker]. *)
Theorem AutoReceive_Stop_unstarted_blocks (parked : bool) (address : string)
    (filters : gmap string Z) (events : list AutoReceiveWorker.Event) :
  AutoReceiveWorker.Stop parked (AutoReceiveWorker.NewAutoReceiveWorker address filters)
    events
  = Blocks
  /\ AutoReceiveWorker.Close parked (AutoReceiveWorker.NewAutoReceiveWorker address filters)
       events
     = Blocks.
Proof. split; reflexivity. Qed.

Context {Pool : Type} (GetNextTx : string -> Pool -> option AutoReceiveWorker.Tx * Pool).

(** X12.  A worker that is not stopped works off the pending blocks of its
    address until the pool has none left, and then waits, marked sleeping.
    It processes, in the order the pool hands them out, exactly the blocks
    whose token has a filter and whose amount is not below the filter's
    minimum; the others are taken from the pool and skipped. *)
Theorem startWork_processes_filtered (n : nat) :
  forall (fuel : nat) (w : AutoReceiveWorker.AutoReceiveWorker) (pool pool' : Pool)
         (events : list AutoReceiveWorker.Event) (txs : list AutoReceiveWorker.Tx),
    AutoReceiveWorker.status w <> Stop ->
    AutoReceiveWorker.pendingTxs GetNextTx n (AutoReceiveWorker.address w) pool
    = Some (txs, pool') ->
    n <= fuel ->
    AutoReceiveWorker.startWork GetNextTx fuel w pool events
    = Returns (AutoReceiveWorker.Parked, AutoReceiveWorker.set_isSleeping true w, pool',
               events ++ (AutoReceiveWorker.ProcessOneBlock
                            <$> filter (fun tx => AutoReceiveWorker.skipped w tx = false) txs)).
Proof.
  induction n as [| n IH]; intros fuel w pool pool' events txs Hst Hpending Hfuel;
    [done |].
  destruct fuel as [| fuel]; [lia |]. simpl in *.
  rewrite decide_False by done.
  destruct (GetNextTx (AutoReceiveWorker.address w) pool) as [[tx |] pool1].
  - destruct (AutoReceiveWorker.pendingTxs GetNextTx n (AutoReceiveWorker.address w) pool1)
      as [[txs1 pool2] |] eqn:Hrest; [| done].
    injection Hpending as <- <-.
    rewrite filter_cons.
    change (AutoReceiveWorker.skipped (AutoReceiveWorker.set_isSleeping false w) tx)
      with (AutoReceiveWorker.skipped w tx).
    destruct (AutoReceiveWorker.skipped w tx) eqn:Hskip.
    + rewrite decide_False by done.
      rewrite (IH fuel (AutoReceiveWorker.set_isSleeping false w) pool1 pool2 events txs1);
        [done | done | done | lia].
    + rewrite decide_True by done.
      rewrite (IH fuel (AutoReceiveWorker.set_isSleeping false w) pool1 pool2
                 (events ++ [AutoReceiveWorker.ProcessOneBlock tx]) txs1);
        [| done | done | lia].
      rewrite fmap_cons, <- app_assoc. done.
  - injection Hpending as <- <-. simpl. by rewrite app_nil_r.
Qed.

End AutoReceiveFacts.

(** ** Unconfirmed accounts *)

Section HandlerFacts.

Context `{handler.AccountChain}.

(** The token info built from an entry of the meta and the token looked up
    for it. *)
Local Abbreviation infoOf ti :=
  {| handler.Token := (handler.tAccess_GetByTokenId (handler.MetaTokenId ti)).1;
     handler.TotalAmount := handler.MetaTotalAmount ti |}.

Lemma tokenInfos_ok (metas : list handler.TokenInfoMeta) (acc : list handler.TokenInfo) :
  Forall (fun ti => (handler.tAccess_GetByTokenId (handler.MetaTokenId ti)).2 = None) metas ->
  handler.tokenInfos metas acc = inl (acc ++ ((fun ti => infoOf ti) <$> metas)).
Proof.
  revert acc. induction metas as [| ti metas IH]; intros acc Hall; simpl.
  - by rewrite app_nil_r.
  - apply Forall_cons in Hall as [Hti Hall].
    destruct (handler.tAccess_GetByTokenId (handler.MetaTokenId ti)) as [token tkErr].
    simpl in Hti. subst tkErr. rewrite IH by done. by rewrite <- app_assoc.
Qed.

Lemma tokenInfos_error (before after : list handler.TokenInfoMeta)
    (ti : handler.TokenInfoMeta) (acc : list handler.TokenInfo) (e : string) :
  Forall (fun ti => (handler.tAccess_GetByTokenId (handler.MetaTokenId ti)).2 = None) before ->
  (handler.tAccess_GetByTokenId (handler.MetaTokenId ti)).2 = Some e ->
  handler.tokenInfos (before ++ ti :: after) acc = inr e.
Proof.
  revert acc. induction before as [| t before IH]; intros acc Hall Hti; simpl.
  - destruct (handler.tAccess_GetByTokenId (handler.MetaTokenId ti)) as [token tkErr].
    simpl in Hti. by subst tkErr.
  - apply Forall_cons in Hall as [Ht Hall].
    destruct (handler.tAccess_GetByTokenId (handler.MetaTokenId t)) as [token tkErr].
    simpl in Ht. subst tkErr. by apply IH.
Qed.

(** X13.  [GetUnconfirmedAccount] returns an account or an error, never
    both.  The error of the meta lookup is returned as it is.  When every
    token of the meta can be looked up, the account has the address asked
    for, the total number of the meta and one token info for each entry of
    the meta, in its order, with the token looked up and the total amount
    of the entry.  Otherwise the error of the first token that cannot be
    looked up is returned, and no account. *)
Theorem GetUnconfirmedAccount_spec (addr : string) :
  (forall m e,
      handler.uAccess_GetUnconfirmedAccountMeta addr = (m, Some e) ->
      handler.GetUnconfirmedAccount addr = Done (None, Some e))
  /\ (forall meta,
        handler.uAccess_GetUnconfirmedAccountMeta addr = (Some meta, None) ->
        Forall (fun ti => (handler.tAccess_GetByTokenId (handler.MetaTokenId ti)).2 = None)
          (handler.MetaTokenInfoList meta) ->
        handler.GetUnconfirmedAccount addr
        = Done (Some {| handler.AccountAddress := addr;
                        handler.TotalNumber := handler.MetaTotalNumber meta;
                        handler.TokenInfoList :=
                          (fun ti => infoOf ti) <$> handler.MetaTokenInfoList meta |},
                None))
  /\ (forall meta before ti after e,
        handler.uAccess_GetUnconfirmedAccountMeta addr = (Some meta, None) ->
        handler.MetaTokenInfoList meta = before ++ ti :: after ->
        Forall (fun ti => (handler.tAccess_GetByTokenId (handler.MetaTokenId ti)).2 = None)
          before ->
        (handler.tAccess_GetByTokenId (handler.MetaTokenId ti)).2 = Some e ->
        handler.GetUnconfirmedAccount addr = Done (None, Some e)).
Proof.
  unfold handler.GetUnconfirmedAccount, handler.GetUnconfirmedAccountMeta.
  split; [| split].
  - intros m e ->. done.
  - intros meta -> Hall. by rewrite tokenInfos_ok.
  - intros meta before ti after e -> -> Hall Hti. by rewrite (tokenInfos_error _ _ _ _ e).
Qed.

End HandlerFacts.

(** ** The pages of one address *)

Section PagingFacts.

Context `{Env}.

Local Abbreviation kept w bl := (filter (fun v => notBlacklisted w v = true) bl).
Local Abbreviation pagesFrom addr k n := ((fun j : nat => (j, addr)) <$> seq k n).

Lemma insertBlocks_count (sh : string) (w : ContractWorker)
    (bl : list ledger.AccountBlock) (qo qo' : option model.PriorityToQueue)
    (count count' : nat) :
  ContractWorker.insertBlocks sh w bl (qo, count) = Done (qo', count') ->
  count' = count + length (kept w bl).
Proof.
  destruct qo as [q |].
  - rewrite insertBlocks_Some. by intros [= <- <-].
  - intros Hrun. apply insertBlocks_None in Hrun as [Heq Hnil].
    injection Heq as _ ->. rewrite Hnil. simpl. lia.
Qed.

(** X14.  The paging of an address goes on exactly until a request is
    answered by a nil page or an error, or until [CONTRACT_FETCH_SIZE]
    blocks of the address have been inserted, blacklisted blocks not
    counted: every request but the last was answered by a page and left the
    count below [CONTRACT_FETCH_SIZE], and the last one was not, or did
    not.  The page that reaches the count is inserted whole. *)
Theorem pageLoop_stops_at_cap (fuel : nat) (sh : string) (w : ContractWorker)
    (addr : string) (k count : nat) (qo qo' : option model.PriorityToQueue)
    (world world' : World) :
  ContractWorker.pageLoop fuel sh w addr k count qo world = Done (qo', world') ->
  exists n,
    world' = addCalls (pagesFrom addr k (S n)) world
    /\ (forall j, j < n ->
          pageEnds (GetUnconfirmedBlocks (k + j) 1 CONTRACT_FETCH_SIZE addr) = false
          /\ count + length (kept w (readBlocks (pagesFrom addr k (S j))))
             < CONTRACT_FETCH_SIZE)
    /\ (pageEnds (GetUnconfirmedBlocks (k + n) 1 CONTRACT_FETCH_SIZE addr) = true
        \/ CONTRACT_FETCH_SIZE
           <= count + length (kept w (readBlocks (pagesFrom addr k (S n))))).
Proof.
  revert k count qo world.
  induction fuel as [| fuel IH]; intros k count qo world Hrun; simpl in Hrun; [done |].
  destruct (GetUnconfirmedBlocks k 1 CONTRACT_FETCH_SIZE addr) as [blockList err] eqn:Hget.
  assert (Hend : pageEnds (blockList, err) = true ->
                 Done (qo, storeCall k addr world) = Done (qo', world') ->
                 exists n,
                   world' = addCalls (pagesFrom addr k (S n)) world
                   /\ (forall j, j < n ->
                         pageEnds (GetUnconfirmedBlocks (k + j) 1 CONTRACT_FETCH_SIZE addr)
                         = false
                         /\ count + length (kept w (readBlocks (pagesFrom addr k (S j))))
                            < CONTRACT_FETCH_SIZE)
                   /\ (pageEnds (GetUnconfirmedBlocks (k + n) 1 CONTRACT_FETCH_SIZE addr)
                       = true
                       \/ CONTRACT_FETCH_SIZE
                          <= count + length (kept w (readBlocks (pagesFrom addr k (S n)))))).
  { intros Hends [= <- <-]. exists 0. split; [done |]. split; [intros j Hj; lia |].
    left. by rewrite Nat.add_0_r, Hget. }
  destruct blockList as [blockList |]; [| by apply Hend].
  destruct err as [e |]; [by apply Hend |]. clear Hend.
  apply bind_Done in Hrun as ([qo1 count1] & Hins & Hrun).
  apply insertBlocks_count in Hins as ->.
  assert (Hpage : readBlocks [(k, addr)] = blockList).
  { unfold readBlocks, pageOf; simpl. by rewrite Hget, app_nil_r. }
  assert (Hsplit : forall m,
            readBlocks (pagesFrom addr k (S m))
            = blockList ++ readBlocks (pagesFrom addr (S k) m)).
  { intros m. change (pagesFrom addr k (S m)) with ([(k, addr)] ++ pagesFrom addr (S k) m).
    by rewrite readBlocks_app, Hpage. }
  assert (Hfirst : readBlocks (pagesFrom addr k 1) = blockList).
  { rewrite Hsplit. unfold readBlocks; simpl. by rewrite app_nil_r. }
  destruct (count + length (kept w blockList) <? CONTRACT_FETCH_SIZE) eqn:Hcap.
  - apply Nat.ltb_lt in Hcap.
    apply IH in Hrun as (n & -> & Hbefore & Hlast). exists (S n).
    split; [by rewrite storeCall_addCalls, addCalls_app |]. split.
    + intros [| j] Hj.
      * rewrite Nat.add_0_r, Hget, Hfirst. done.
      * destruct (Hbefore j ltac:(lia)) as [Hpg Hcnt].
        replace (k + S j) with (S k + j) by lia. split; [done |].
        rewrite Hsplit, filter_app, length_app. lia.
    + replace (k + S n) with (S k + n) by lia.
      destruct Hlast as [Hlast | Hlast]; [by left | right].
      rewrite Hsplit, filter_app, length_app. lia.
  - apply Nat.ltb_ge in Hcap. injection Hrun as <- <-. exists 0.
    split; [done |]. split; [intros j Hj; lia |]. right. by rewrite Hfirst.
Qed.

End PagingFacts.

(** ** The further properties at concrete workers *)

Section MoreInstances.

#[local] Existing Instance abEnv.

Lemma FetchNewFromDb_frame_witness :
  exists full w' world',
    ContractWorker.FetchNewFromDb 5 (demoWorker (Some model.emptyQueue) ∅ 1) emptyWorld
    = Done (full, w', world')
    /\ (lastAddrIndex w' = 0 \/ lastAddrIndex w' < length (contractAddressList w'))
    /\ set_lastAddrIndex 1 (set_priorityToQueue (Some model.emptyQueue) w')
       = demoWorker (Some model.emptyQueue) ∅ 1
    /\ Listeners world' = Listeners emptyWorld
    /\ Tasks world' = Tasks emptyWorld
    /\ DispatchLoops world' = DispatchLoops emptyWorld
    /\ ChanOps world' = ChanOps emptyWorld
    /\ exists calls, StoreCalls world' = StoreCalls emptyWorld ++ calls.
Proof.
  do 3 eexists. split; [lazy; reflexivity |].
  eapply (@FetchNewFromDb_frame abEnv 5 (demoWorker (Some model.emptyQueue) ∅ 1) _
            emptyWorld).
  lazy; reflexivity.
Defined.

Lemma dispatch_never_panics_witness :
  priorityToQueue (demoWorker (Some scenarioA) ∅ 7) = Some scenarioA
  /\ ContractWorker.FetchNewFromDb 3 (demoWorker (Some scenarioA) ∅ 7) emptyWorld
     <> Panic "index out of range"
  /\ ContractWorker.dispatchTask 3 0 (demoWorker (Some scenarioA) ∅ 7) emptyWorld
     <> Panic "index out of range".
Proof.
  split; [reflexivity |].
  apply (@dispatch_never_panics abEnv 3 0 (demoWorker (Some scenarioA) ∅ 7) scenarioA
           emptyWorld "index out of range" ltac:(reflexivity)).
Defined.

Lemma dispatchTask_with_work_witness :
  let w := demoWorker (Some scenarioA) ∅ 0 in
  priorityToQueue w = Some scenarioA
  /\ model.Len scenarioA <> 0
  /\ model.nonEmptyBuckets scenarioA = true
  /\ exists fItem tItem q',
       ContractWorker.dispatchTask 0 0 w emptyWorld
       = Done (Some fItem, set_priorityToQueue (Some q') w, emptyWorld)
       /\ tItem ∈ model.Buckets scenarioA /\ fItem ∈ model.Value tItem
       /\ model.Len q' < model.Len scenarioA
       /\ (forall b, b ∈ model.Buckets scenarioA ->
             (model.ReceiverPriority b < model.ReceiverPriority tItem)%N
             \/ (model.ReceiverPriority b = model.ReceiverPriority tItem
                 /\ model.ToSeq tItem <= model.ToSeq b))
       /\ (forall it, it ∈ model.Value tItem ->
             (model.SenderPriority it < model.SenderPriority fItem)%N
             \/ (model.SenderPriority it = model.SenderPriority fItem
                 /\ model.FromSeq fItem <= model.FromSeq it)).
Proof.
  split; [reflexivity |]. split; [vm_compute; lia |]. split; [reflexivity |].
  apply (@dispatchTask_with_work abEnv 0 0 (demoWorker (Some scenarioA) ∅ 0) scenarioA
           emptyWorld); [reflexivity | vm_compute; lia | reflexivity].
Defined.

Lemma fetchPass_scans_list_witness :
  let w := demoWorker (Some model.emptyQueue) ∅ 0 in
  priorityToQueue w = Some model.emptyQueue
  /\ storeBoundedBy 1 w = true
  /\ 1 <= CONTRACT_TASK_SIZE
  /\ 2 * length (contractAddressList w) + 1 + 3 <= 8
  /\ exists w' calls,
       fetchPass 8 w emptyWorld = Done (w', addCalls calls emptyWorld)
       /\ lastAddrIndex w' = 0
       /\ scannedBy calls = drop (lastAddrIndex w) (contractAddressList w)
       /\ priorityToQueue w'
          = Some (insertAll (producer.SnapshotHash (accEvent w))
                    (filter (fun v => notBlacklisted w v = true) (readBlocks calls))
                    model.emptyQueue).
Proof.
  split; [reflexivity |]. split; [reflexivity |]. split; [simpl; lia |].
  split; [simpl; lia |].
  apply (@fetchPass_scans_list abEnv 1 8 (demoWorker (Some model.emptyQueue) ∅ 0)
           model.emptyQueue emptyWorld);
    [reflexivity | reflexivity | simpl; lia | simpl; lia].
Defined.

Lemma Stop_then_wake_or_restart_witness :
  exists w1 world1,
    status runningWorker <> Stop
    /\ @ContractWorker.Stop (emptyEnv false) runningWorker emptyWorld = Done (w1, world1)
    /\ status w1 = Stop
    /\ ContractWorker.NewUnconfirmedTxAlarm w1 emptyWorld = Panic "send on closed channel"
    /\ exists w2 world2,
         ContractWorker.Start w1 world1 = Done (w2, world2)
         /\ status w2 = Start
         /\ @ContractWorker.Stop (emptyEnv false) w2 world2
            = Panic "close of closed channel".
Proof.
  do 2 eexists. split; [discriminate |]. split; [lazy; reflexivity |].
  eapply (@Stop_then_wake_or_restart (emptyEnv false) runningWorker _ emptyWorld);
    [discriminate | lazy; reflexivity].
Defined.

Lemma AutoReceive_Start_then_Stop_witness :
  let w := AutoReceiveWorker.NewAutoReceiveWorker "A" {[ "VITE" := 10%Z ]} in
  let pool := [txOf "VITE" 25; txOf "VITE" 3] in
  AutoReceiveWorker.status w <> Start
  /\ AutoReceiveWorker.pendingTxs listPool 3 (AutoReceiveWorker.address w) pool
     = Some (pool, [])
  /\ 3 <= 3
  /\ exists w1 events1 w1' events1' w2 events2,
       AutoReceiveWorker.Start w [] = Returns (w1, events1)
       /\ AutoReceiveWorker.status w1 = Start
       /\ AutoReceiveWorker.Stop false w1 events1 = Blocks
       /\ AutoReceiveWorker.startWork listPool 3 w1 pool events1
          = Returns (AutoReceiveWorker.Parked, w1', [], events1')
       /\ AutoReceiveWorker.Stop true w1' events1' = Returns (w2, events2)
       /\ AutoReceiveWorker.status w2 = Stop
       /\ AutoReceiveWorker.breaker w2 = AutoReceiveWorker.closedChan
       /\ AutoReceiveWorker.newUnconfirmedTxAlarm w2 = AutoReceiveWorker.closedChan
       /\ AutoReceiveWorker.stopListener w2 = AutoReceiveWorker.closedChan
       /\ AutoReceiveWorker.filters w2 = AutoReceiveWorker.filters w
       /\ AutoReceiveWorker.address w2 = AutoReceiveWorker.address w.
Proof.
  split; [discriminate |]. split; [reflexivity |]. split; [lia |].
  apply (AutoReceive_Start_then_Stop listPool 3 3
           (AutoReceiveWorker.NewAutoReceiveWorker "A" {[ "VITE" := 10%Z ]})
           [txOf "VITE" 25; txOf "VITE" 3] [] []
           [txOf "VITE" 25; txOf "VITE" 3]);
    [discriminate | reflexivity | lia].
Defined.

Lemma startWork_processes_filtered_witness :
  let pool := [txOf "VITE" 25; txOf "VITE" 3; txOf "VCP" 100; txOf "VITE" 10] in
  AutoReceiveWorker.status viteReceiver <> Stop
  /\ AutoReceiveWorker.pendingTxs listPool 5 (AutoReceiveWorker.address viteReceiver) pool
     = Some (pool, [])
  /\ 5 <= 5
  /\ AutoReceiveWorker.startWork listPool 5 viteReceiver pool []
     = Returns (AutoReceiveWorker.Parked, AutoReceiveWorker.set_isSleeping true viteReceiver,
                [],
                [AutoReceiveWorker.ProcessOneBlock (txOf "VITE" 25);
                 AutoReceiveWorker.ProcessOneBlock (txOf "VITE" 10)]).
Proof.
  split; [discriminate |]. split; [reflexivity |]. split; [lia |].
  apply (startWork_processes_filtered listPool 5 5 viteReceiver
           [txOf "VITE" 25; txOf "VITE" 3; txOf "VCP" 100; txOf "VITE" 10] [] []
           [txOf "VITE" 25; txOf "VITE" 3; txOf "VCP" 100; txOf "VITE" 10]
           ltac:(discriminate) ltac:(reflexivity) ltac:(lia)).
Defined.

Lemma GetUnconfirmedAccount_spec_witness :
  @handler.GetUnconfirmedAccount demoChain "A"
  = Done (Some {| handler.AccountAddress := "A";
                  handler.TotalNumber := 3;
                  handler.TokenInfoList :=
                    [ {| handler.Token := Some "Vite Token"; handler.TotalAmount := 25 |};
                      {| handler.Token := Some "Vite Community Point";
                         handler.TotalAmount := 7 |} ] |},
          None).
Proof.
  apply (proj1 (proj2 (@GetUnconfirmedAccount_spec demoChain "A"))
           {| handler.MetaTotalNumber := 3;
              handler.MetaTokenInfoList :=
                [ {| handler.MetaTokenId := "VITE"; handler.MetaTotalAmount := 25 |};
                  {| handler.MetaTokenId := "VCP"; handler.MetaTotalAmount := 7 |} ] |}
           ltac:(reflexivity)).
  repeat constructor.
Defined.

Lemma pageLoop_stops_at_cap_witness :
  exists qo' world' n,
    ContractWorker.pageLoop 3 "H" (demoWorker (Some model.emptyQueue) ∅ 0) "R2" 0 0
      (Some model.emptyQueue) emptyWorld
    = Done (qo', world')
    /\ world' = addCalls ((fun j : nat => (j, "R2")) <$> seq 0 (S n)) emptyWorld
    /\ (forall j, j < n ->
          pageEnds (GetUnconfirmedBlocks (0 + j) 1 CONTRACT_FETCH_SIZE "R2") = false
          /\ 0 + length (filter
                          (fun v =>
                             notBlacklisted (demoWorker (Some model.emptyQueue) ∅ 0) v = true)
                          (readBlocks ((fun j : nat => (j, "R2")) <$> seq 0 (S j))))
             < CONTRACT_FETCH_SIZE)
    /\ (pageEnds (GetUnconfirmedBlocks (0 + n) 1 CONTRACT_FETCH_SIZE "R2") = true
        \/ CONTRACT_FETCH_SIZE
           <= 0 + length (filter
                            (fun v =>
                               notBlacklisted (demoWorker (Some model.emptyQueue) ∅ 0) v
                               = true)
                            (readBlocks ((fun j : nat => (j, "R2")) <$> seq 0 (S n))))).
Proof.
  do 2 eexists.
  assert (Hrun :
    ContractWorker.pageLoop 3 "H" (demoWorker (Some model.emptyQueue) ∅ 0) "R2" 0 0
      (Some model.emptyQueue) emptyWorld
    = Done (Some (model.InsertNew (blockOf "S3" "R2") 20 1 model.emptyQueue),
            addCalls [(0, "R2"); (1, "R2")] emptyWorld)) by reflexivity.
  destruct (@pageLoop_stops_at_cap abEnv 3 "H" (demoWorker (Some model.emptyQueue) ∅ 0)
              "R2" 0 0 _ _ _ _ Hrun) as (n & Hw & Hbefore & Hlast).
  exists n. split; [exact Hrun |]. split; [exact Hw |]. split; [exact Hbefore |].
  exact Hlast.
Defined.

End MoreInstances.
